(** * dmitigr::concur — a simple thread pool and a thread-affinity helper

    Shallow embedding of [simple_thread_pool.hpp] and [affinity.hpp].

    The pool is a shared-memory concurrent object.  It is embedded as an
    interleaving transition system: the state [Pool] holds the data members
    of the class together with one program counter per thread of the pool
    (the workers, and the thread that runs the destructor); one transition
    is one atomic step of one thread, chosen by a scheduler [Action].
    Member functions that run entirely inside one critical section
    ([submit], [clear], [queue_size], [size]) are one transition each. *)

From Stdlib Require Import ZArith NArith Lia.
From stdpp Require Import base tactics option list strings.

Local Open Scope string_scope.
Local Open Scope list_scope.

(** ** Failures *)

(** What a [throw] can carry, as seen by the handlers of [wait_and_run]:
    an object caught by [catch (const std::exception& e)] with its
    [e.what()], or anything else, caught by [catch (...)]. *)
Inductive Thrown : Type :=
| StdException (what : string)
| Unknown.

(** Modelled from the spec: the class [Exception] of [exceptions.hpp], which is
    not among the sources.  The spec calls its uses a "construction error"
    and an "invalid task" error, rejected synchronously at the call site; it
    is taken to be a [std::exception] carrying the message it is built from. *)
Definition Exception (what : string) : Thrown := StdException what.

(** The result of a call: it returns a value, it throws, or it ends the
    process by [std::terminate]. *)
Inductive Res (A : Type) : Type :=
| Val (a : A)
| Exn (e : Thrown)
| Terminated.
Arguments Val {A} a.
Arguments Exn {A} e.
Arguments Terminated {A}.

(** How a call of a user-supplied callable ends. *)
Inductive Outcome : Type :=
| Returns
| Throws (e : Thrown).

(** ** Data model *)

(** A non-empty [std::function<void()>]: opaque to the pool, it is identified
    by [task_id] and ends as [task_outcome] says. *)
Record Task : Type := mkTask {
  task_id : N;
  task_outcome : Outcome
}.

(** [std::function<void()>]: [None] is the empty function object. *)
Definition Func : Type := option Task.

(** [Logger = std::function<void(std::string_view)>]: [None] is the empty
    logger; a supplied logger may itself throw on a message. *)
Definition Logger : Type := option (string → Outcome).

(** Program counter of a worker thread inside [wait_and_run]. *)
Inductive Worker : Type :=
| Top                 (* loop head: about to lock [queue_mutex_] *)
| Pred                (* in [wait], lock held: about to evaluate the predicate *)
| Wait                (* predicate was false, lock held: about to block *)
| Blocked             (* blocked on [state_changed_], lock released *)
| Woken               (* unblocked: about to re-lock [queue_mutex_] *)
| Test                (* [wait] returned, lock held: at [if (is_started_)] *)
| Run (t : Task)      (* lock released: about to call [func()] *)
| Running (t : Task)  (* inside [func()] *)
| Exited              (* returned from [wait_and_run] *)
| Aborted.            (* an assertion failed, or an exception escaped *)

(** Program counter of the thread that destroys the pool. *)
Inductive Dtor : Type :=
| DEntry              (* not yet in the destructor: about to lock [work_mutex_] *)
| DStore              (* about to execute [is_started_ = false] *)
| DNotify             (* about to execute [state_changed_.notify_all()] *)
| DJoin (k : nat)     (* about to join [workers_[k]] *)
| DDone.              (* destructor returned: the pool is gone *)

(** The pool.  [state_changed_] has no field of its own: the threads waiting
    on the condition variable are exactly the workers at [Blocked].  The last
    four fields are history variables; no transition reads them. *)
Record Pool : Type := mkPool {
  queue_mutex_ : option nat;   (* index of the worker holding it *)
  queue_ : list Func;          (* front of the queue first *)
  work_mutex_ : bool;          (* held (by the destructor) *)
  workers_ : list Worker;
  is_started_ : bool;
  logger_ : Logger;
  dtor_ : Dtor;
  submitted : list Func;       (* every function pushed, in push order *)
  dequeued : list Func;        (* every function popped, in pop order *)
  started : list Task;         (* every task called, in call order *)
  logged : list string         (* every message handed to the logger *)
}.

Definition with_queue_mutex (m : option nat) (p : Pool) : Pool :=
  mkPool m (queue_ p) (work_mutex_ p) (workers_ p) (is_started_ p)
         (logger_ p) (dtor_ p) (submitted p) (dequeued p) (started p) (logged p).

Definition with_queue (q : list Func) (p : Pool) : Pool :=
  mkPool (queue_mutex_ p) q (work_mutex_ p) (workers_ p) (is_started_ p)
         (logger_ p) (dtor_ p) (submitted p) (dequeued p) (started p) (logged p).

Definition with_work_mutex (m : bool) (p : Pool) : Pool :=
  mkPool (queue_mutex_ p) (queue_ p) m (workers_ p) (is_started_ p)
         (logger_ p) (dtor_ p) (submitted p) (dequeued p) (started p) (logged p).

Definition with_workers (ws : list Worker) (p : Pool) : Pool :=
  mkPool (queue_mutex_ p) (queue_ p) (work_mutex_ p) ws (is_started_ p)
         (logger_ p) (dtor_ p) (submitted p) (dequeued p) (started p) (logged p).

Definition with_is_started (b : bool) (p : Pool) : Pool :=
  mkPool (queue_mutex_ p) (queue_ p) (work_mutex_ p) (workers_ p) b
         (logger_ p) (dtor_ p) (submitted p) (dequeued p) (started p) (logged p).

Definition with_dtor (d : Dtor) (p : Pool) : Pool :=
  mkPool (queue_mutex_ p) (queue_ p) (work_mutex_ p) (workers_ p)
         (is_started_ p) (logger_ p) d (submitted p) (dequeued p) (started p)
         (logged p).

Definition with_submitted (l : list Func) (p : Pool) : Pool :=
  mkPool (queue_mutex_ p) (queue_ p) (work_mutex_ p) (workers_ p)
         (is_started_ p) (logger_ p) (dtor_ p) l (dequeued p) (started p)
         (logged p).

Definition with_dequeued (l : list Func) (p : Pool) : Pool :=
  mkPool (queue_mutex_ p) (queue_ p) (work_mutex_ p) (workers_ p)
         (is_started_ p) (logger_ p) (dtor_ p) (submitted p) l (started p)
         (logged p).

Definition with_started (l : list Task) (p : Pool) : Pool :=
  mkPool (queue_mutex_ p) (queue_ p) (work_mutex_ p) (workers_ p)
         (is_started_ p) (logger_ p) (dtor_ p) (submitted p) (dequeued p) l
         (logged p).

Definition with_logged (l : list string) (p : Pool) : Pool :=
  mkPool (queue_mutex_ p) (queue_ p) (work_mutex_ p) (workers_ p)
         (is_started_ p) (logger_ p) (dtor_ p) (submitted p) (dequeued p)
         (started p) l.

Definition set_worker (i : nat) (w : Worker) (p : Pool) : Pool :=
  with_workers (<[i:=w]> (workers_ p)) p.

(** ** Calls that may throw: a state and exception monad over [Pool] *)

Definition M (A : Type) : Type := Pool → Res A * Pool.

Definition ret {A} (a : A) : M A := λ p, (Val a, p).

Definition throw {A} (e : Thrown) : M A := λ p, (Exn e, p).

(** [try { m } catch (...) { h }], the handler seeing what was thrown. *)
Definition try_catch {A} (m : M A) (h : Thrown → M A) : M A :=
  λ p, match m p with
       | (Val a, p') => (Val a, p')
       | (Exn e, p') => h e p'
       | (Terminated, p') => (Terminated, p')
       end.

(** ** The condition variable *)

Definition is_blocked (w : Worker) : bool :=
  match w with Blocked => true | _ => false end.

(** [notify_all]: every waiting thread is unblocked. *)
Definition notify_all (ws : list Worker) : list Worker :=
  (λ w, if is_blocked w then Woken else w) <$> ws.

(** [notify_one]: one waiting thread, [pick], is unblocked; nothing happens
    when [pick] is not waiting. *)
Definition notify_one (pick : nat) (ws : list Worker) : list Worker :=
  match ws !! pick with
  | Some Blocked => <[pick:=Woken]> ws
  | _ => ws
  end.

(** The scheduler's [pick] is a legal choice for [notify_one]: it names a
    waiting thread whenever some thread is waiting. *)
Definition valid_pick (pick : nat) (ws : list Worker) : bool :=
  match ws !! pick with
  | Some Blocked => true
  | _ => negb (existsb is_blocked ws)
  end.

(** ** Construction *)

(** The members as their default initialisers leave them, before the body of
    the constructor runs: [bool is_started_{}], empty queue, no thread. *)
Definition members (logger : Logger) : Pool :=
  mkPool None [] false [] false logger DEntry [] [] [] [].

(** The host, as far as the constructor depends on it. *)
Record Host : Type := mkHost {
  vector_max_size : N;      (* [workers_.max_size()] *)
  threads_allocatable : N;  (* the longest vector of threads it has memory for *)
  threads_startable : N     (* how many threads it lets the process start *)
}.

(** What the library throws when the constructor cannot go on:
    [std::length_error] and [std::bad_alloc] from [workers_.resize(size)],
    [std::system_error] from the constructor of [std::thread].  All three
    derive from [std::exception]; the texts of [what()] are the library's,
    and no statement depends on them. *)
Definition length_error : Thrown := StdException "vector::_M_default_append".
Definition bad_alloc : Thrown := StdException "std::bad_alloc".
Definition system_error : Thrown :=
  StdException "Resource temporarily unavailable".

(** [Simple_thread_pool(size, logger)]: the result of the constructor and the
    members as the constructor leaves them (on [Exn], at the [throw]).
    [workers_.resize(size)] throws above [max_size()] and when memory is
    short.  When the host refuses to start a thread the constructor of
    [std::thread] throws and the members are destroyed: with no thread
    started yet the exception reaches the caller, and with a started thread
    in [workers_] the destructor of that joinable [std::thread] calls
    [std::terminate].  In both cases [workers_] is given as the threads
    started so far. *)
Definition Simple_thread_pool (host : Host) (size : N) (logger : Logger) :
    Res unit * Pool :=
  (if (size =? 0)%N
   then throw (Exception "cannot create thread pool: empty pool is not allowed")
   else λ p,
     let p1 := with_is_started true p in
     if (vector_max_size host <? size)%N then throw length_error p1
     else if (threads_allocatable host <? size)%N then throw bad_alloc p1
     else if (threads_startable host <? size)%N then
       if (threads_startable host =? 0)%N then throw system_error p1
       else (Terminated,
             with_workers (replicate (N.to_nat (threads_startable host)) Top)
                          p1)
     else ret tt (with_workers (replicate (N.to_nat size) Top) p1))
    (members logger).

(** [Simple_thread_pool(logger)]: the size is what the host reports as
    [std::thread::hardware_concurrency()]. *)
Definition Simple_thread_pool_default (host : Host)
    (hardware_concurrency : N) (logger : Logger) : Res unit * Pool :=
  Simple_thread_pool host hardware_concurrency logger.

(** ** Public member functions *)

(** [submit(function)].  [pick] is the thread [notify_one] unblocks. *)
Definition submit (function : Func) (pick : nat) : M unit :=
  match function with
  | None => throw (Exception "thread pool worker is invalid")
  | Some _ =>
      λ p, ret tt
             (with_workers (notify_one pick (workers_ p))
                (with_submitted (submitted p ++ [function])
                   (with_queue (queue_ p ++ [function]) p)))
  end.

(** [clear()]: [queue_ = {}]. *)
Definition clear (p : Pool) : Pool := with_queue [] p.

(** [queue_size()]. *)
Definition queue_size (p : Pool) : N := N.of_nat (length (queue_ p)).

(** [size()]. *)
Definition size (p : Pool) : N := N.of_nat (length (workers_ p)).

(** ** The worker *)

(** [log_error(what)]: the logger, when there is one, is called with [what];
    whatever it throws is dropped by [catch (...) {}]. *)
Definition call_logger (lg : string → Outcome) (what : string) : M unit :=
  λ p, (match lg what with Returns => Val tt | Throws e => Exn e end,
        with_logged (logged p ++ [what]) p).

Definition log_error (what : string) : M unit :=
  try_catch
    (λ p, match logger_ p with
          | Some lg => call_logger lg what p
          | None => ret tt p
          end)
    (λ _, ret tt).

(** [func()]. *)
Definition call (t : Task) : M unit :=
  match task_outcome t with
  | Returns => ret tt
  | Throws e => throw e
  end.

(** [func()] under the two handlers of [wait_and_run]. *)
Definition run_func (t : Task) : M unit :=
  try_catch (call t)
    (λ e, match e with
          | StdException what => log_error what
          | Unknown => log_error "unknown error"
          end).

(** The predicate of [state_changed_.wait]:
    [!queue_.empty() || !is_started_]. *)
Definition wait_predicate (p : Pool) : bool :=
  negb (bool_decide (queue_ p = [])) || negb (is_started_ p).

(** Modelled from the spec: [DMITIGR_ASSERT] of [base/assert.hpp], which is not
    among the sources.  The spec calls its use in the worker the assertion of
    an invariant; a failed assertion is taken to end the thread, which stays
    at [Aborted]. *)
Definition assertion_failed (i : nat) (p : Pool) : Pool :=
  set_worker i Aborted p.

(** One atomic step of worker [i] in [wait_and_run]; [None] when the worker
    cannot move: it needs a lock that is held, it is blocked, or it is gone.
    [state_changed_.wait(lk, pred)] is [while (!pred()) wait(lk);]: the
    predicate is evaluated with the lock held ([Pred]), and [wait(lk)]
    releases the lock and blocks in one step ([Wait] to [Blocked]).  An
    exception that leaves the [noexcept] function ends the thread too. *)
Definition wait_and_run (i : nat) (p : Pool) : option Pool :=
  match workers_ p !! i with
  | None => None
  | Some Top | Some Woken =>
      match queue_mutex_ p with
      | None => Some (set_worker i Pred (with_queue_mutex (Some i) p))
      | Some _ => None
      end
  | Some Pred =>
      Some (set_worker i (if wait_predicate p then Test else Wait) p)
  | Some Wait => Some (set_worker i Blocked (with_queue_mutex None p))
  | Some Blocked => None
  | Some Test =>
      if is_started_ p then
        match queue_ p with
        | [] => Some (assertion_failed i p)
        | None :: _ => Some (assertion_failed i p)
        | Some t :: q =>
            Some (set_worker i (Run t)
                    (with_queue_mutex None
                       (with_dequeued (dequeued p ++ [Some t])
                          (with_queue q p))))
        end
      else Some (set_worker i Exited (with_queue_mutex None p))
  | Some (Run t) =>
      Some (set_worker i (Running t) (with_started (started p ++ [t]) p))
  | Some (Running t) =>
      match run_func t p with
      | (Val _, p') => Some (set_worker i Top p')
      | (Exn _, p') | (Terminated, p') => Some (set_worker i Aborted p')
      end
  | Some Exited | Some Aborted => None
  end.

(** ** The destructor *)

(** One atomic step of [~Simple_thread_pool()].  The [lock_guard] on
    [work_mutex_] is held until the destructor returns; [join] of a worker
    that has not returned cannot move.  Every element of [workers_] is a
    started thread, so [DMITIGR_ASSERT(worker.joinable())] holds. *)
Definition destructor (p : Pool) : option Pool :=
  match dtor_ p with
  | DEntry =>
      if work_mutex_ p then None
      else Some (with_dtor DStore (with_work_mutex true p))
  | DStore => Some (with_dtor DNotify (with_is_started false p))
  | DNotify =>
      Some (with_dtor (DJoin 0) (with_workers (notify_all (workers_ p)) p))
  | DJoin k =>
      match workers_ p !! k with
      | None => Some (with_dtor DDone (with_work_mutex false p))
      | Some Exited => Some (with_dtor (DJoin (S k)) p)
      | Some _ => None
      end
  | DDone => None
  end.

(** ** The transition system *)

Inductive Action : Type :=
| ASubmit (function : Func) (pick : nat)   (* a client calls [submit] *)
| AClear                                   (* a client calls [clear] *)
| AQueueSize                               (* a client calls [queue_size] *)
| ASize                                    (* a client calls [size] *)
| ADestructor                              (* the destroying thread moves *)
| AWorker (i : nat)                        (* worker [i] moves *)
| ASpurious (i : nat).                     (* [wait] of worker [i] wakes
                                              without a notification *)

Definition alive (p : Pool) : bool :=
  match dtor_ p with DDone => false | _ => true end.

Definition queue_free (p : Pool) : bool :=
  match queue_mutex_ p with None => true | Some _ => false end.

(** [exec a p] is the pool after action [a], or [None] when [a] cannot
    happen in [p].  A member function that throws leaves the pool as the
    monad returns it. *)
Definition exec (a : Action) (p : Pool) : option Pool :=
  match a with
  | ASubmit None pick =>
      if alive p then Some (snd (submit None pick p)) else None
  | ASubmit (Some t) pick =>
      if alive p && queue_free p && valid_pick pick (workers_ p)
      then Some (snd (submit (Some t) pick p)) else None
  | AClear => if alive p && queue_free p then Some (clear p) else None
  | AQueueSize => if alive p && queue_free p then Some p else None
  | ASize => if alive p && negb (work_mutex_ p) then Some p else None
  | ADestructor => destructor p
  | AWorker i => wait_and_run i p
  | ASpurious i =>
      match workers_ p !! i with
      | Some Blocked => Some (set_worker i Woken p)
      | _ => None
      end
  end.

Fixpoint run (acts : list Action) (p : Pool) : option Pool :=
  match acts with
  | [] => Some p
  | a :: acts' =>
      match exec a p with
      | Some p' => run acts' p'
      | None => None
      end
  end.

(** The actions that happen without anybody's help: a step of a thread of
    the pool.  Client calls and spurious wake-ups are not among them. *)
Definition own_actions (p : Pool) : list Action :=
  ADestructor :: (AWorker <$> seq 0 (length (workers_ p))).

(** No thread of the pool can move. *)
Definition stuck (p : Pool) : bool :=
  forallb (λ a, match exec a p with None => true | Some _ => false end)
          (own_actions p).

(** ** Thread affinity ([affinity.hpp]) *)

(** [pthread_t], an unsigned integer; [0] is the handle that [handle && ...]
    rejects. *)
Definition pthread_t : Type := N.

(** [CPU_SETSIZE]: the number of CPUs a [cpu_set_t] has room for (1024 in
    glibc and in musl). *)
Definition CPU_SETSIZE : N := 1024.

(** [sizeof(cpu_set_t)], in bytes. *)
Definition sizeof_cpu_set_t : N := CPU_SETSIZE / 8.

(** [cpu_set_t]: [CPU_SETSIZE] bits, bit [c] standing for CPU [c]
    (the array [__bits] read as one number, least significant word first). *)
Definition cpu_set_t : Type := Z.

(** [CPU_ZERO(&set)]. *)
Definition CPU_ZERO : cpu_set_t := 0%Z.

(** [CPU_SET(cpu, &set)], which is [__CPU_SET_S(cpu, sizeof(cpu_set_t), &set)]:
    [__cpu / 8 < setsize ? (__bits[__CPUELT(__cpu)] |= __CPUMASK(__cpu)) : 0].
    A CPU the set has no room for is left out. *)
Definition CPU_SET (cpu : N) (set : cpu_set_t) : cpu_set_t :=
  if (cpu / 8 <? sizeof_cpu_set_t)%N
  then Z.lor set (Z.shiftl 1 (Z.of_N cpu))
  else set.

(** [CPU_ISSET(cpu, &set)]. *)
Definition CPU_ISSET (cpu : N) (set : cpu_set_t) : bool :=
  (cpu / 8 <? sizeof_cpu_set_t)%N && Z.testbit set (Z.of_N cpu).

Inductive error_category : Type :=
| generic_category
| system_category.

(** [std::error_code]. *)
Record error_code : Type := mk_error_code {
  value : Z;
  category : error_category
}.

(** [EINVAL], the value of [std::errc::invalid_argument]. *)
Definition EINVAL : Z := 22.

(** [std::make_error_code(std::errc::invalid_argument)]. *)
Definition invalid_argument : error_code := mk_error_code EINVAL generic_category.

(** One call of [pthread_setaffinity_np(handle, cpusetsize, &set)]. *)
Record OsCall : Type := mkOsCall {
  call_handle : pthread_t;
  call_cpusetsize : N;
  call_set : cpu_set_t
}.

(** [set_affinity(handle, cpu)] on a host that reports [hardware_concurrency]
    and whose [pthread_setaffinity_np] answers a call as [os] says: the
    error code returned, and the calls made to the OS, in order. *)
Definition set_affinity (hardware_concurrency : N) (os : OsCall → Z)
    (handle : pthread_t) (cpu : N) : error_code * list OsCall :=
  if negb (negb (handle =? 0)%N && (cpu <? hardware_concurrency)%N)
  then (invalid_argument, [])
  else
    let set := CPU_SET cpu CPU_ZERO in
    let c := mkOsCall handle sizeof_cpu_set_t set in
    let err := os c in
    (mk_error_code err generic_category, [c]).

(** ** Vocabulary of the statements *)

(** The message a handler of [wait_and_run] passes to [log_error]. *)
Definition failure_message (e : Thrown) : string :=
  match e with
  | StdException what => what
  | Unknown => "unknown error"
  end.

(** The action is a call of [clear]. *)
Definition is_clear (a : Action) : bool :=
  match a with AClear => true | _ => false end.

(** The functions a schedule pushes: the non-empty ones it submits, in the
    order of the calls. *)
Definition accepted (acts : list Action) : list Func :=
  omap (λ a, match a with
             | ASubmit (Some t) _ => Some (Some t)
             | _ => None
             end) acts.

(** The function a worker has taken off the queue and not called yet. *)
Definition in_hand (w : Worker) : list Func :=
  match w with Run t => [Some t] | _ => [] end.

(** The worker holds [queue_mutex_] at this program point. *)
Definition holds_queue_mutex (w : Worker) : bool :=
  match w with Pred | Wait | Test => true | _ => false end.

(** Where a call of a task can come from: the function has been called, a
    worker has it in hand, or it is queued. *)
Definition source (p : Pool) (f : Func) : Prop :=
  (∃ t, f = Some t ∧ t ∈ started p) ∨
  (∃ i t, f = Some t ∧ workers_ p !! i = Some (Run t)) ∨
  f ∈ queue_ p.

(** How far the destructor has got: at the join of worker [k] the workers
    before [k] have returned, and once the destructor has returned every
    worker has. *)
Definition joined (p : Pool) : Prop :=
  (∀ k i w, dtor_ p = DJoin k → i < k →
            workers_ p !! i = Some w → w = Exited) ∧
  (∀ i w, dtor_ p = DDone → workers_ p !! i = Some w → w = Exited).

(** What holds of the pool in every state it can reach. *)
Record pool_inv (p : Pool) : Prop := mk_pool_inv {
  (* a worker at a program point inside the critical section owns the lock *)
  inv_owner : ∀ i w,
    workers_ p !! i = Some w → holds_queue_mutex w = true →
    queue_mutex_ p = Some i;
  (* a worker whose wait has returned was released for a reason *)
  inv_released : ∀ i,
    workers_ p !! i = Some Test → queue_ p ≠ [] ∨ is_started_ p = false;
  (* no empty function is queued *)
  inv_funcs : ∀ f, f ∈ queue_ p → is_Some f;
  (* no assertion has failed and no exception has escaped *)
  inv_no_abort : ∀ i, workers_ p !! i ≠ Some Aborted
}.

(** ** Sample data for the examples *)

(** A host with room for a thousand threads. *)
Definition roomy_host : Host := mkHost 1000 1000 1000.

(** A task that returns, and a task that throws a [std::exception]. *)
Definition task_ok (n : N) : Task := mkTask n Returns.
Definition task_bad (n : N) (what : string) : Task :=
  mkTask n (Throws (StdException what)).

(** A logger that throws on every message. *)
Definition throwing_logger : Logger := Some (λ _, Throws Unknown).

(** A schedule that takes a pool of one worker, with the throwing logger,
    into a task that throws while a second task waits in the queue, and the
    state it leads to. *)
Definition schedule_to_bad_task : list Action :=
  [ASubmit (Some (task_bad 1 "boom")) 0; ASubmit (Some (task_ok 2)) 0;
   AWorker 0; AWorker 0; AWorker 0; AWorker 0].

Definition pool_with_logger : Pool :=
  Eval vm_compute in snd (Simple_thread_pool roomy_host 1 throwing_logger).

Definition pool_in_bad_task : Pool :=
  Eval vm_compute in
    default pool_with_logger (run schedule_to_bad_task pool_with_logger).

(** A pool of three workers and no logger, as constructed. *)
Definition pool_of_three : Pool :=
  Eval vm_compute in snd (Simple_thread_pool roomy_host 3 None).

(** A pool of one worker and no logger, as constructed. *)
Definition pool_of_one : Pool :=
  Eval vm_compute in snd (Simple_thread_pool roomy_host 1 None).

(** [pool_of_one] after a task and then an empty function were submitted. *)
Definition pool_after_empty_submit : Pool :=
  Eval vm_compute in
    default pool_of_one
      (run [ASubmit (Some (task_ok 1)) 0; ASubmit None 0] pool_of_one).

(** A schedule that takes the worker of [pool_of_one] through its wait with
    one task queued, and the state it leads to. *)
Definition schedule_to_test : list Action :=
  [ASubmit (Some (task_ok 1)) 0; AWorker 0; AWorker 0].

Definition pool_at_test : Pool :=
  Eval vm_compute in default pool_of_one (run schedule_to_test pool_of_one).

(** A schedule that submits three tasks to [pool_of_one] while its worker
    serves them, and the state it leads to. *)
Definition schedule_of_three : list Action :=
  [ASubmit (Some (task_ok 1)) 0; ASubmit (Some (task_bad 2 "boom")) 0;
   AWorker 0; AWorker 0; AWorker 0; AWorker 0;
   ASubmit (Some (task_ok 3)) 0; AWorker 0;
   AWorker 0; AWorker 0; AWorker 0].

Definition pool_after_three : Pool :=
  Eval vm_compute in default pool_of_one (run schedule_of_three pool_of_one).

(** A pool of one worker whose worker has one task in hand while two more
    are queued; a schedule that goes on after [clear], and where it leads. *)
Definition pool_before_clear : Pool :=
  Eval vm_compute in
    default pool_of_one
      (run [ASubmit (Some (task_ok 1)) 0; AWorker 0; AWorker 0; AWorker 0;
            ASubmit (Some (task_ok 2)) 0; ASubmit (Some (task_ok 3)) 0]
           pool_of_one).

Definition schedule_after_clear : list Action :=
  [AWorker 0; AWorker 0; ASubmit (Some (task_ok 4)) 0;
   AWorker 0; AWorker 0; AWorker 0; AWorker 0].

Definition pool_after_clear : Pool :=
  Eval vm_compute in
    default pool_of_one (run schedule_after_clear (clear pool_before_clear)).

(** A schedule of [pool_of_one] in which the destructor runs between the
    worker's evaluation of the wait predicate and its blocking, and the
    state it leads to. *)
Definition schedule_missed_wakeup : list Action :=
  [AWorker 0;     (* the worker locks [queue_mutex_] *)
   AWorker 0;     (* predicate: queue empty, pool running; it will block *)
   ADestructor;   (* the destructor locks [work_mutex_] *)
   ADestructor;   (* [is_started_ = false] *)
   ADestructor;   (* [notify_all()]: nobody is waiting yet *)
   AWorker 0].    (* the worker blocks, releasing [queue_mutex_] *)

Definition pool_deadlocked : Pool :=
  Eval vm_compute in
    default pool_of_one (run schedule_missed_wakeup pool_of_one).

(** A schedule of [pool_of_one] in which the worker is already blocked when
    the destructor runs. *)
Definition schedule_clean_shutdown : list Action :=
  [AWorker 0; AWorker 0; AWorker 0;
   ADestructor; ADestructor; ADestructor;
   AWorker 0; AWorker 0; AWorker 0;
   ADestructor; ADestructor].

(** An operating system that accepts a mask exactly when it is not empty. *)
Definition os_rejecting_empty_mask (c : OsCall) : Z :=
  if (call_set c =? 0)%Z then EINVAL else 0%Z.

(** ** Vocabulary of the further properties *)

(** [std::thread], as far as [set_affinity] looks at it. *)
Record thread : Type := mkThread {
  native_handle : pthread_t
}.

(** [set_affinity(std::thread& thread, cpu)]. *)
Definition set_affinity_thread (hardware_concurrency : N) (os : OsCall → Z)
    (th : thread) (cpu : N) : error_code * list OsCall :=
  set_affinity hardware_concurrency os (native_handle th) cpu.


(** The functions the workers have in hand. *)
Definition hands (ws : list Worker) : list Func := ws ≫= in_hand.

(** The destructor has not executed [is_started_ = false] yet. *)
Definition before_store (d : Dtor) : bool :=
  match d with DEntry | DStore => true | _ => false end.

(** The destructor has locked [work_mutex_] and has not returned. *)
Definition in_destructor (d : Dtor) : bool :=
  match d with DEntry | DDone => false | _ => true end.

(** More of what holds in every state the pool can reach. *)
Record sync_inv (p : Pool) : Prop := mk_sync_inv {
  (* the lock is held only by a worker inside the critical section *)
  inv_holder : ∀ i,
    queue_mutex_ p = Some i →
    ∃ w, workers_ p !! i = Some w ∧ holds_queue_mutex w = true;
  (* a worker about to block has seen the queue empty, and it still is *)
  inv_wait : ∀ i, workers_ p !! i = Some Wait → queue_ p = [];
  (* while something is queued some worker is not blocked *)
  inv_awake :
    queue_ p ≠ [] → ∃ i w, workers_ p !! i = Some w ∧ is_blocked w = false;
  (* there is a worker *)
  inv_workers : workers_ p ≠ [];
  (* the flag and the destructor's lock follow the destructor *)
  inv_flag : is_started_ p = before_store (dtor_ p);
  inv_work_mutex : work_mutex_ p = in_destructor (dtor_ p)
}.

(** A pool of two workers and no logger, as constructed; a schedule after
    which worker 0 is inside a task and worker 1 holds the queue lock; and a
    schedule that takes the destructor to its first join. *)
Definition pool_of_two : Pool :=
  Eval vm_compute in snd (Simple_thread_pool roomy_host 2 None).

Definition schedule_two_busy : list Action :=
  [ASubmit (Some (task_ok 1)) 0; AWorker 0; AWorker 0; AWorker 0; AWorker 0;
   AWorker 1].

Definition pool_two_busy : Pool :=
  Eval vm_compute in default pool_of_two (run schedule_two_busy pool_of_two).

Definition schedule_into_destructor : list Action :=
  [ASubmit (Some (task_ok 1)) 0; ADestructor; ADestructor; ADestructor].

Definition pool_in_destructor : Pool :=
  Eval vm_compute in
    default pool_of_two (run schedule_into_destructor pool_of_two).

(** A schedule in which a worker of [pool_in_destructor] finds the flag
    cleared, and the state it leads to. *)
Definition schedule_after_store : list Action :=
  [AWorker 0; AWorker 0; AWorker 0; AWorker 1; AWorker 1; AWorker 1].

Definition pool_after_store : Pool :=
  Eval vm_compute in
    default pool_of_two (run schedule_after_store pool_in_destructor).


(** [pool_deadlocked] after one more task is submitted. *)
Definition pool_after_late_submit : Pool :=
  Eval vm_compute in
    default pool_deadlocked
      (exec (ASubmit (Some (task_ok 7)) 0) pool_deadlocked).


Definition pool_shut_down : Pool :=
  Eval vm_compute in
    default pool_of_one (run schedule_clean_shutdown pool_of_one).

(** * Properties *)

(** ** Generalities on schedules *)

(** A constructor that returns leaves a running pool of [n ≥ 1] workers at
    the head of [wait_and_run]. *)
Lemma constructed_pool (host : Host) (n : N) (logger : Logger) (p0 : Pool) :
  Simple_thread_pool host n logger = (Val tt, p0) →
  (0 < n)%N ∧
  p0 = with_workers (replicate (N.to_nat n) Top)
                    (with_is_started true (members logger)).
Proof.
  unfold Simple_thread_pool.
  destruct (N.eqb_spec n 0) as [->|Hn]; [done|].
  repeat case_match; try done. intros [= <-]. split; [lia|done].
Qed.

(** The constructor returns exactly when the size is not zero and the host
    grants the vector and the threads. *)
Lemma constructor_returns_iff (host : Host) (n : N) (logger : Logger) :
  fst (Simple_thread_pool host n logger) = Val tt ↔
  (0 < n)%N ∧ (n ≤ vector_max_size host)%N ∧
  (n ≤ threads_allocatable host)%N ∧ (n ≤ threads_startable host)%N.
Proof.
  unfold Simple_thread_pool.
  destruct (N.eqb_spec n 0) as [->|Hn]; [split; [done|lia]|].
  destruct (N.ltb_spec (vector_max_size host) n);
    [split; [done|lia]|].
  destruct (N.ltb_spec (threads_allocatable host) n);
    [split; [done|lia]|].
  destruct (N.ltb_spec (threads_startable host) n).
  - destruct (threads_startable host =? 0)%N; split; try done; lia.
  - split; [lia|done].
Qed.

(** A property that every transition preserves holds along every schedule. *)
Lemma run_invariant (I : Pool → Prop) :
  (∀ a p p', I p → exec a p = Some p' → I p') →
  ∀ acts p p', I p → run acts p = Some p' → I p'.
Proof.
  intros Hstep acts. induction acts as [|a acts IH]; intros p p' Hp Hrun.
  - simpl in Hrun. by simplify_eq.
  - simpl in Hrun. destruct (exec a p) as [q|] eqn:Ha; [|done].
    eapply IH; [|exact Hrun]. eapply Hstep; eauto.
Qed.

(** ** [log_error] and the handlers *)

Lemma log_error_spec (what : string) (p : Pool) :
  log_error what p =
  (Val tt, match logger_ p with
           | Some _ => with_logged (logged p ++ [what]) p
           | None => p
           end).
Proof.
  unfold log_error, try_catch, call_logger, ret.
  destruct (logger_ p) as [lg|]; [|done].
  by destruct (lg what).
Qed.

Lemma run_func_spec (t : Task) (p : Pool) :
  run_func t p =
  (Val tt, match task_outcome t, logger_ p with
           | Throws e, Some _ => with_logged (logged p ++ [failure_message e]) p
           | _, _ => p
           end).
Proof.
  unfold run_func, try_catch, call.
  destruct (task_outcome t) as [|[what|]]; simpl; [done| |];
    by rewrite log_error_spec.
Qed.

(** ** Single steps of a worker *)

Lemma step_lock (i : nat) (p : Pool) :
  workers_ p !! i = Some Top → queue_mutex_ p = None →
  wait_and_run i p = Some (set_worker i Pred (with_queue_mutex (Some i) p)).
Proof. intros Hw Hm. unfold wait_and_run. by rewrite Hw, Hm. Qed.

Lemma step_pred (i : nat) (p : Pool) :
  workers_ p !! i = Some Pred →
  wait_and_run i p =
  Some (set_worker i (if wait_predicate p then Test else Wait) p).
Proof. intros Hw. unfold wait_and_run. by rewrite Hw. Qed.

Lemma step_dequeue (i : nat) (t : Task) (q : list Func) (p : Pool) :
  workers_ p !! i = Some Test → is_started_ p = true →
  queue_ p = Some t :: q →
  wait_and_run i p =
  Some (set_worker i (Run t)
          (with_queue_mutex None
             (with_dequeued (dequeued p ++ [Some t]) (with_queue q p)))).
Proof. intros Hw Hs Hq. unfold wait_and_run. by rewrite Hw, Hs, Hq. Qed.

Lemma step_call (i : nat) (t : Task) (p : Pool) :
  workers_ p !! i = Some (Run t) →
  wait_and_run i p =
  Some (set_worker i (Running t) (with_started (started p ++ [t]) p)).
Proof. intros Hw. unfold wait_and_run. by rewrite Hw. Qed.

Lemma step_return (i : nat) (t : Task) (p : Pool) :
  workers_ p !! i = Some (Running t) →
  wait_and_run i p = Some (set_worker i Top (snd (run_func t p))).
Proof.
  intros Hw. unfold wait_and_run. rewrite Hw. by rewrite run_func_spec.
Qed.

(** From the loop head, with the lock free, the pool running and a task at
    the front of the queue, four steps of the worker take it into that
    task. *)
Lemma worker_takes_front (i : nat) (t : Task) (q : list Func) (p : Pool) :
  workers_ p !! i = Some Top → queue_mutex_ p = None →
  is_started_ p = true → queue_ p = Some t :: q →
  ∃ p', run [AWorker i; AWorker i; AWorker i; AWorker i] p = Some p' ∧
        workers_ p' !! i = Some (Running t) ∧
        started p' = started p ++ [t] ∧
        queue_ p' = q.
Proof.
  intros Hw Hm Hs Hq.
  assert (Hi : i < length (workers_ p)) by (by eapply lookup_lt_Some).
  simpl. rewrite (step_lock i p Hw Hm).
  set (p1 := set_worker i Pred _).
  assert (H1 : workers_ p1 !! i = Some Pred)
    by (subst p1; simpl; by rewrite list_lookup_insert_eq).
  rewrite (step_pred i p1 H1).
  assert (Hpred : wait_predicate p1 = true).
  { unfold wait_predicate. subst p1. simpl. rewrite Hq.
    by rewrite bool_decide_eq_false_2. }
  rewrite Hpred. set (p2 := set_worker i Test p1).
  assert (H2 : workers_ p2 !! i = Some Test).
  { subst p2 p1. simpl. rewrite list_lookup_insert_eq; [done|].
    by rewrite length_insert. }
  rewrite (step_dequeue i t q p2 H2); [| by subst p2 p1 | by subst p2 p1].
  set (p3 := set_worker i (Run t) _).
  assert (H3 : workers_ p3 !! i = Some (Run t)).
  { subst p3 p2 p1. simpl. rewrite list_lookup_insert_eq; [done|].
    by rewrite !length_insert. }
  rewrite (step_call i t p3 H3).
  eexists. split; [done|]. subst p3 p2 p1. simpl.
  split; [|done]. rewrite list_lookup_insert_eq; [done|].
  by rewrite !length_insert.
Qed.

(** The step of a worker out of a task that throws. *)
Lemma failing_task_step (i : nat) (t : Task) (e : Thrown) (p : Pool) :
  workers_ p !! i = Some (Running t) →
  task_outcome t = Throws e →
  ∃ p',
    exec (AWorker i) p = Some p' ∧
    workers_ p' = <[i:=Top]> (workers_ p) ∧
    logged p' = logged p ++ match logger_ p with
                            | Some _ => [failure_message e]
                            | None => []
                            end ∧
    queue_ p' = queue_ p ∧
    queue_mutex_ p' = queue_mutex_ p ∧
    is_started_ p' = is_started_ p ∧
    started p' = started p ∧
    ∀ t' q,
      queue_mutex_ p = None → is_started_ p = true → queue_ p = Some t' :: q →
      ∃ p'', run (replicate 4 (AWorker i)) p' = Some p'' ∧
             workers_ p'' !! i = Some (Running t') ∧
             started p'' = started p ++ [t'].
Proof.
  intros Hw He.
  assert (Hi : i < length (workers_ p)) by (by eapply lookup_lt_Some).
  exists (set_worker i Top (snd (run_func t p))).
  split; [by apply step_return|].
  rewrite run_func_spec, He. simpl.
  assert (Hshape :
    ∀ p1, p1 = match logger_ p with
               | Some _ => with_logged (logged p ++ [failure_message e]) p
               | None => p
               end →
          workers_ p1 = workers_ p ∧ queue_ p1 = queue_ p ∧
          queue_mutex_ p1 = queue_mutex_ p ∧ is_started_ p1 = is_started_ p ∧
          started p1 = started p ∧
          logged p1 = logged p ++ match logger_ p with
                                  | Some _ => [failure_message e]
                                  | None => []
                                  end).
  { intros p1 ->. destruct (logger_ p); simpl; by rewrite ?app_nil_r. }
  destruct (Hshape _ eq_refl) as (Hws & Hq & Hm & Hs & Hst & Hl).
  rewrite Hws. repeat split; try done.
  intros t' q Hfree Hrun Hfront.
  edestruct (worker_takes_front i t' q
               (set_worker i Top
                  match logger_ p with
                  | Some _ => with_logged (logged p ++ [failure_message e]) p
                  | None => p
                  end)) as (p'' & Hp'' & Hw'' & Hst'' & _).
  - simpl. rewrite Hws. by rewrite list_lookup_insert_eq.
  - simpl. congruence.
  - simpl. congruence.
  - simpl. congruence.
  - exists p''. simpl in Hst''. rewrite Hst in Hst''. done.
Qed.

(** ** Rejected calls *)

(** C7. The constructor called with size 0 throws the "empty pool"
    exception; at the throw no worker has been started and the running flag
    is still false. *)
Theorem empty_pool_is_rejected (host : Host) (logger : Logger) :
  fst (Simple_thread_pool host 0 logger) =
    Exn (Exception "cannot create thread pool: empty pool is not allowed") ∧
  workers_ (snd (Simple_thread_pool host 0 logger)) = [] ∧
  is_started_ (snd (Simple_thread_pool host 0 logger)) = false.
Proof. done. Qed.

(** C10. The default constructor is the sized constructor at the reported
    hardware concurrency; on a host that reports 0 it throws what the sized
    constructor throws for size 0, and starts nothing. *)
Theorem default_pool_on_zero_concurrency (host : Host) (logger : Logger) :
  (∀ hardware_concurrency,
     Simple_thread_pool_default host hardware_concurrency logger =
     Simple_thread_pool host hardware_concurrency logger) ∧
  fst (Simple_thread_pool_default host 0 logger) =
    Exn (Exception "cannot create thread pool: empty pool is not allowed") ∧
  fst (Simple_thread_pool_default host 0 logger) = fst (Simple_thread_pool host 0 logger) ∧
  workers_ (snd (Simple_thread_pool_default host 0 logger)) = [] ∧
  is_started_ (snd (Simple_thread_pool_default host 0 logger)) = false.
Proof. done. Qed.

(** ** The worker set *)

(** Case analysis on a transition: one goal per way [exec] can succeed. *)
Ltac exec_cases H :=
  match type of H with
  | exec ?a ?p = Some ?p' =>
      destruct a as [[?|] ?| | | | |?|?]; simpl in H;
      unfold wait_and_run, destructor in H;
      repeat case_match;
      try match goal with
          | R : run_func _ _ = _ |- _ => rewrite run_func_spec in R
          end;
      repeat match goal with
             | G : _ && _ = true |- _ => apply andb_true_iff in G as [? ?]
             end;
      unfold queue_free in *;
      simplify_eq/=; repeat case_match; simplify_eq/=
  end.

Lemma length_notify_all (ws : list Worker) :
  length (notify_all ws) = length ws.
Proof. unfold notify_all. by rewrite length_fmap. Qed.

Lemma length_notify_one (pick : nat) (ws : list Worker) :
  length (notify_one pick ws) = length ws.
Proof.
  unfold notify_one. repeat case_match; try done. by rewrite length_insert.
Qed.

Lemma exec_workers_length (a : Action) (p p' : Pool) :
  exec a p = Some p' → length (workers_ p') = length (workers_ p).
Proof.
  intros H. exec_cases H;
    rewrite ?length_insert, ?length_notify_all, ?length_notify_one; done.
Qed.

(** C9. A pool constructed with size [n] has [n ≥ 1], exactly [n] workers,
    each at the head of [wait_and_run], and [size()] is [n] there and in
    every state a schedule of client calls, worker steps, destructor steps
    and wake-ups leads to. *)
Theorem size_is_fixed_at_construction (host : Host) (n : N) (logger : Logger)
    (p0 : Pool) :
  Simple_thread_pool host n logger = (Val tt, p0) →
  (0 < n)%N ∧
  workers_ p0 = replicate (N.to_nat n) Top ∧
  size p0 = n ∧
  ∀ acts p, run acts p0 = Some p → size p = n.
Proof.
  intros [Hn ->]%constructed_pool.
  split; [exact Hn|]. split; [reflexivity|].
  assert (H0 : ∀ p, length (workers_ p) = N.to_nat n → size p = n).
  { intros p Hp. unfold size. rewrite Hp. apply N2Nat.id. }
  split.
  - apply H0. simpl. apply length_replicate.
  - intros acts p Hrun. apply H0.
    eapply (run_invariant (λ p, length (workers_ p) = N.to_nat n));
      [| |exact Hrun].
    + intros a q q' Hq Ha. by rewrite (exec_workers_length a q q' Ha).
    + simpl. apply length_replicate.
Qed.

Lemma size_is_fixed_at_construction_witness :
  Simple_thread_pool roomy_host 3 None = (Val tt, pool_of_three) ∧
  workers_ pool_of_three = [Top; Top; Top] ∧
  size pool_of_three = 3%N ∧
  ∀ acts p, run acts pool_of_three = Some p → size p = 3%N.
Proof.
  assert (Hc : Simple_thread_pool roomy_host 3 None = (Val tt, pool_of_three))
    by (vm_compute; reflexivity).
  split; [exact Hc|].
  exact (proj2 (size_is_fixed_at_construction roomy_host 3 None
                  pool_of_three Hc)).
Defined.

(** ** The invariant of the pool *)

Lemma lookup_notify_all (ws : list Worker) (i : nat) (w : Worker) :
  notify_all ws !! i = Some w →
  ws !! i = Some w ∨ (w = Woken ∧ ws !! i = Some Blocked).
Proof.
  unfold notify_all. rewrite list_lookup_fmap.
  destruct (ws !! i) as [[]|]; simpl; intros; simplify_eq; auto.
Qed.

Lemma lookup_notify_one (pick : nat) (ws : list Worker) (i : nat) (w : Worker) :
  notify_one pick ws !! i = Some w →
  ws !! i = Some w ∨ (w = Woken ∧ ws !! i = Some Blocked).
Proof.
  unfold notify_one. destruct (ws !! pick) as [[]|] eqn:Hp; auto.
  intros [(-> & <- & _)|(_ & H)]%list_lookup_insert_Some; auto.
Qed.

(** Reads a lookup in an updated worker set back into the old one. *)
Ltac lookups :=
  repeat match goal with
    | H : <[_:=_]> _ !! _ = Some _ |- _ =>
        apply list_lookup_insert_Some in H;
        destruct H as [(? & ? & ?)|(? & H)]; simplify_eq/=
    | H : notify_all _ !! _ = Some _ |- _ =>
        apply lookup_notify_all in H; destruct H as [H|[? H]]; simplify_eq/=
    | H : notify_one _ _ !! _ = Some _ |- _ =>
        apply lookup_notify_one in H; destruct H as [H|[? H]]; simplify_eq/=
    end.

Lemma members_inv (host : Host) (n : N) (logger : Logger) (p0 : Pool) :
  Simple_thread_pool host n logger = (Val tt, p0) → pool_inv p0.
Proof.
  intros [_ ->]%constructed_pool. split; simpl.
  - intros i w [-> _]%lookup_replicate. done.
  - intros i [? _]%lookup_replicate. done.
  - intros f Hf. by apply elem_of_nil in Hf.
  - intros i [? _]%lookup_replicate. done.
Qed.

Lemma wait_predicate_true (p : Pool) :
  wait_predicate p = true ↔ queue_ p ≠ [] ∨ is_started_ p = false.
Proof.
  unfold wait_predicate.
  rewrite orb_true_iff, !negb_true_iff, bool_decide_eq_false. done.
Qed.

(** Brings in what the invariant says of every worker in sight. *)
Ltac inv_facts Ho Hr :=
  repeat match goal with
    | H : workers_ _ !! ?i = Some ?w |- _ =>
        first [ pose proof (Ho i w H eq_refl)
              | match goal with
                | Hh : holds_queue_mutex w = true |- _ =>
                    pose proof (Ho i w H Hh)
                end ];
        try pose proof (Hr i H);
        revert H
    end;
  intros.

Lemma exec_preserves_inv (a : Action) (p p' : Pool) :
  pool_inv p → exec a p = Some p' → pool_inv p'.
Proof.
  intros [Ho Hr Hf Ha] H.
  exec_cases H.
  (* neither assertion of [wait_and_run] can fail *)
  all: try match goal with
         | Hw : workers_ ?p !! _ = Some Test, Hq : queue_ ?p = [] |- _ =>
             destruct (Hr _ Hw); congruence
         | Hq : queue_ ?p = None :: _ |- _ =>
             destruct (Hf None) as [? [=]]; rewrite ?Hq; by left
         end.
  all: split; simpl.
  (* the owner of the lock *)
  all: try (intros i' w' Hw' Hh'; lookups; inv_facts Ho Hr; simplify_eq/=;
            try done; try congruence; eauto; fail).
  (* the reason of a release, and the absence of aborts *)
  all: try (intros i' Hw'; lookups; inv_facts Ho Hr; simplify_eq/=;
            try done; try congruence; eauto; fail).
  (* the queued functions *)
  all: try (intros f' Hf'; eauto; fail).
  - intros f [?| ->%list_elem_of_singleton]%elem_of_app; eauto.
  - intros f Hf'. by apply elem_of_nil in Hf'.
  - intros i' Hw'. by apply wait_predicate_true.
  - intros f Hf'. apply Hf. by apply elem_of_cons; right.
Qed.

Lemma reachable_inv (host : Host) (n : N) (logger : Logger) (p0 : Pool)
    (acts : list Action) (p : Pool) :
  Simple_thread_pool host n logger = (Val tt, p0) →
  run acts p0 = Some p → pool_inv p.
Proof.
  intros Hc Hrun.
  eapply (run_invariant pool_inv); [|by eapply members_inv|exact Hrun].
  intros a q q' Hq Ha. by eapply exec_preserves_inv.
Qed.

(** C5. In every state a constructed pool can reach: a worker whose wait has
    returned faces a non-empty queue or a cleared running flag; if it finds
    the pool running, the front of the queue is a non-empty function and the
    worker's next step takes it; and no worker has aborted, so neither
    assertion of [wait_and_run] has failed. *)
Theorem released_worker_finds_work (host : Host) (n : N) (logger : Logger) (p0 : Pool)
    (acts : list Action) (p : Pool) :
  Simple_thread_pool host n logger = (Val tt, p0) →
  run acts p0 = Some p →
  (∀ i, workers_ p !! i = Some Test →
        queue_ p ≠ [] ∨ is_started_ p = false) ∧
  (∀ i, workers_ p !! i = Some Test → is_started_ p = true →
        ∃ t q p',
          queue_ p = Some t :: q ∧
          exec (AWorker i) p = Some p' ∧
          workers_ p' !! i = Some (Run t) ∧
          queue_ p' = q) ∧
  (∀ i, workers_ p !! i ≠ Some Aborted).
Proof.
  intros Hc Hrun.
  destruct (reachable_inv host n logger p0 acts p Hc Hrun) as [Ho Hr Hf Ha].
  split; [exact Hr|]. split; [|exact Ha].
  intros i Hw Hs.
  destruct (Hr i Hw) as [Hq|Hq]; [|congruence].
  destruct (queue_ p) as [|f q] eqn:Eq; [done|].
  destruct (Hf f) as [t ->]; [by left|].
  exists t, q. eexists. split; [done|].
  split; [by apply step_dequeue|]. simpl.
  split; [|done]. apply list_lookup_insert_eq. by eapply lookup_lt_Some.
Qed.

Lemma released_worker_finds_work_witness :
  Simple_thread_pool roomy_host 1 None = (Val tt, pool_of_one) ∧
  run schedule_to_test pool_of_one = Some pool_at_test ∧
  workers_ pool_at_test !! 0 = Some Test ∧
  (queue_ pool_at_test ≠ [] ∨ is_started_ pool_at_test = false) ∧
  workers_ pool_at_test !! 0 ≠ Some Aborted.
Proof.
  assert (Hc : Simple_thread_pool roomy_host 1 None = (Val tt, pool_of_one))
    by (vm_compute; reflexivity).
  assert (Hrun : run schedule_to_test pool_of_one = Some pool_at_test)
    by (vm_compute; reflexivity).
  split; [exact Hc|]. split; [exact Hrun|]. split; [reflexivity|].
  destruct (released_worker_finds_work roomy_host 1 None pool_of_one schedule_to_test
              pool_at_test Hc Hrun) as (Hr & _ & Ha).
  split; [exact (Hr 0 eq_refl) | exact (Ha 0)].
Defined.

(** C4. [submit] of an empty function throws the "invalid" exception and
    leaves every member as it was: nothing is pushed and [queue_size()] is
    what it was.  The call can happen whoever holds the queue lock: it
    throws before locking.  Whatever calls a constructed pool has served, no
    empty function is in its queue. *)
Theorem submit_empty_function_is_rejected (pick : nat) (q : Pool) :
  submit None pick q = (Exn (Exception "thread pool worker is invalid"), q) ∧
  queue_ (snd (submit None pick q)) = queue_ q ∧
  queue_size (snd (submit None pick q)) = queue_size q ∧
  exec (ASubmit None pick) q = (if alive q then Some q else None) ∧
  (∀ host n logger p0 acts p,
     Simple_thread_pool host n logger = (Val tt, p0) →
     run acts p0 = Some p →
     None ∉ queue_ p).
Proof.
  repeat split; try done.
  intros host n logger p0 acts p Hc Hrun Hin.
  destruct (reachable_inv host n logger p0 acts p Hc Hrun) as [_ _ Hf _].
  by destruct (Hf None Hin).
Qed.

Lemma submit_empty_function_is_rejected_witness :
  Simple_thread_pool roomy_host 1 None = (Val tt, pool_of_one) ∧
  run [ASubmit (Some (task_ok 1)) 0; ASubmit None 0] pool_of_one =
    Some pool_after_empty_submit ∧
  queue_ pool_after_empty_submit = [Some (task_ok 1)] ∧
  None ∉ queue_ pool_after_empty_submit.
Proof.
  assert (Hc : Simple_thread_pool roomy_host 1 None = (Val tt, pool_of_one))
    by (vm_compute; reflexivity).
  assert (Hrun : run [ASubmit (Some (task_ok 1)) 0; ASubmit None 0]
                     pool_of_one = Some pool_after_empty_submit)
    by (vm_compute; reflexivity).
  split; [exact Hc|]. split; [exact Hrun|]. split; [reflexivity|].
  destruct (submit_empty_function_is_rejected 0 pool_of_one)
    as (_ & _ & _ & _ & Hq).
  exact (Hq roomy_host 1%N None pool_of_one _ pool_after_empty_submit Hc Hrun).
Defined.

(** ** Failures of tasks *)

Lemma exec_logger (a : Action) (p p' : Pool) :
  exec a p = Some p' → logger_ p' = logger_ p.
Proof. intros H. by exec_cases H. Qed.

(** A worker returns from [wait_and_run] only after the flag is cleared, and
    the flag is never set again. *)
Lemma exec_exited (a : Action) (p p' : Pool) :
  exec a p = Some p' →
  (∀ i, workers_ p !! i = Some Exited → is_started_ p = false) →
  ∀ i, workers_ p' !! i = Some Exited → is_started_ p' = false.
Proof.
  intros H Hinv i' Hw'.
  exec_cases H; lookups; try done; eauto.
Qed.

(** C3. In every state a constructed pool can reach, no worker has aborted
    and a worker has returned only if the running flag is cleared: no
    failure of a task ends a worker.  A worker inside a task that throws
    takes a step; the step leaves the worker at the head of its loop and
    changes no other worker, the queue, the lock or the running flag; the
    message of the failure ([what()], or "unknown error") has been handed to
    the logger exactly when a logger was supplied, whatever the logger
    itself does with it (it may throw).  From there the same worker goes on
    to call the task at the front of the queue. *)
Theorem task_failure_is_contained (host : Host) (n : N) (logger : Logger) (p0 : Pool)
    (acts : list Action) (p : Pool) :
  Simple_thread_pool host n logger = (Val tt, p0) →
  run acts p0 = Some p →
  (∀ i, workers_ p !! i ≠ Some Aborted) ∧
  (∀ i, workers_ p !! i = Some Exited → is_started_ p = false) ∧
  (∀ i t e,
     workers_ p !! i = Some (Running t) →
     task_outcome t = Throws e →
     ∃ p',
       exec (AWorker i) p = Some p' ∧
       workers_ p' = <[i:=Top]> (workers_ p) ∧
       logged p' = logged p ++ match logger with
                               | Some _ => [failure_message e]
                               | None => []
                               end ∧
       queue_ p' = queue_ p ∧
       queue_mutex_ p' = queue_mutex_ p ∧
       is_started_ p' = is_started_ p ∧
       started p' = started p ∧
       ∀ t' q,
         queue_mutex_ p = None → is_started_ p = true →
         queue_ p = Some t' :: q →
         ∃ p'', run (replicate 4 (AWorker i)) p' = Some p'' ∧
                workers_ p'' !! i = Some (Running t') ∧
                started p'' = started p ++ [t']).
Proof.
  intros Hc Hrun.
  assert (H0 : logger_ p0 = logger ∧
               workers_ p0 = replicate (N.to_nat n) Top).
  { by destruct (constructed_pool _ _ _ _ Hc) as [_ ->]. }
  destruct H0 as [Hl0 Hw0].
  split; [|split].
  - by destruct (reachable_inv host n logger p0 acts p Hc Hrun).
  - eapply (run_invariant
              (λ p, ∀ i, workers_ p !! i = Some Exited →
                         is_started_ p = false)); [| |exact Hrun].
    + intros a q q' Hq Ha. by eapply exec_exited.
    + intros i. rewrite Hw0. by intros [? _]%lookup_replicate.
  - assert (Hl : logger_ p = logger).
    { eapply (run_invariant (λ p, logger_ p = logger)); [| |exact Hrun].
      - intros a q q' Hq Ha. by rewrite (exec_logger a q q' Ha).
      - exact Hl0. }
    intros i t e Hw He. rewrite <- Hl.
    exact (failing_task_step i t e p Hw He).
Qed.

Lemma task_failure_is_contained_witness :
  Simple_thread_pool roomy_host 1 throwing_logger = (Val tt, pool_with_logger) ∧
  run schedule_to_bad_task pool_with_logger = Some pool_in_bad_task ∧
  workers_ pool_in_bad_task !! 0 = Some (Running (task_bad 1 "boom")) ∧
  task_outcome (task_bad 1 "boom") = Throws (StdException "boom") ∧
  ∃ p',
    exec (AWorker 0) pool_in_bad_task = Some p' ∧
    workers_ p' = [Top] ∧
    logged p' = ["boom"] ∧
    ∃ p'', run (replicate 4 (AWorker 0)) p' = Some p'' ∧
           workers_ p'' !! 0 = Some (Running (task_ok 2)).
Proof.
  assert (Hc : Simple_thread_pool roomy_host 1 throwing_logger =
               (Val tt, pool_with_logger)) by (vm_compute; reflexivity).
  assert (Hrun : run schedule_to_bad_task pool_with_logger =
                 Some pool_in_bad_task) by (vm_compute; reflexivity).
  split; [exact Hc|]. split; [exact Hrun|].
  split; [reflexivity|]. split; [reflexivity|].
  destruct (task_failure_is_contained roomy_host 1 throwing_logger pool_with_logger
              schedule_to_bad_task pool_in_bad_task Hc Hrun)
    as (_ & _ & Hstep).
  destruct (Hstep 0 (task_bad 1 "boom") (StdException "boom")
              eq_refl eq_refl)
    as (p' & Hex & Hws & Hl & _ & _ & _ & _ & Hnext).
  exists p'. split; [exact Hex|]. split; [exact Hws|]. split; [exact Hl|].
  destruct (Hnext (task_ok 2) [] eq_refl eq_refl eq_refl)
    as (p'' & Hr & Hw'' & _).
  exists p''. split; [exact Hr | exact Hw''].
Defined.

(** ** Order of service *)

Lemma exec_submitted (a : Action) (p p' : Pool) :
  exec a p = Some p' → submitted p' = submitted p ++ accepted [a].
Proof. intros H. exec_cases H; by rewrite ?app_nil_r. Qed.

Lemma run_submitted (acts : list Action) (p p' : Pool) :
  run acts p = Some p' → submitted p' = submitted p ++ accepted acts.
Proof.
  revert p. induction acts as [|a acts IH]; intros p Hrun; simpl in Hrun.
  - simplify_eq. by rewrite app_nil_r.
  - destruct (exec a p) as [q|] eqn:Ha; [|done].
    rewrite (IH q Hrun), (exec_submitted a p q Ha).
    rewrite <- app_assoc. f_equal. unfold accepted. simpl.
    by repeat case_match.
Qed.

(** Pushes go to the back and pops take the front: what was pushed is what
    was popped, then what is queued, as long as nothing is cleared. *)
Lemma exec_fifo (a : Action) (p p' : Pool) :
  exec a p = Some p' → is_clear a = false →
  submitted p = dequeued p ++ queue_ p →
  submitted p' = dequeued p' ++ queue_ p'.
Proof.
  intros H Hc Hi. exec_cases H; try done; try congruence.
  - rewrite Hi. by rewrite <- app_assoc.
  - rewrite Hi. by rewrite <- app_assoc.
Qed.

Lemma run_fifo (acts : list Action) (p p' : Pool) :
  run acts p = Some p' → existsb is_clear acts = false →
  submitted p = dequeued p ++ queue_ p →
  submitted p' = dequeued p' ++ queue_ p'.
Proof.
  revert p. induction acts as [|a acts IH]; intros p Hrun Hc Hi;
    simpl in Hrun.
  - by simplify_eq.
  - destruct (exec a p) as [q|] eqn:Ha; [|done].
    simpl in Hc. apply orb_false_iff in Hc as [Hc1 Hc2].
    eapply IH; [exact Hrun|exact Hc2|]. by eapply exec_fifo.
Qed.

(** With [clear] in the schedule the pops are still a subsequence of the
    pushes that precede the queued functions. *)
Lemma exec_order (a : Action) (p p' : Pool) :
  exec a p = Some p' →
  (∃ pre, submitted p = pre ++ queue_ p ∧ dequeued p `sublist_of` pre) →
  ∃ pre, submitted p' = pre ++ queue_ p' ∧ dequeued p' `sublist_of` pre.
Proof.
  intros H (pre & Hs & Hd).
  exec_cases H; eauto; try (exists pre; split; [congruence|done]).
  - exists pre. split; [|done]. rewrite Hs. by rewrite <- app_assoc.
  - exists (pre ++ queue_ p). rewrite app_nil_r. split; [done|].
    by apply sublist_inserts_r.
  - exists (pre ++ [Some t]). split.
    + rewrite Hs. by rewrite <- app_assoc.
    + by apply sublist_app.
Qed.

(** A pool of one worker calls what it pops before it pops again. *)
Lemma exec_single (a : Action) (p p' : Pool) :
  exec a p = Some p' →
  (∃ w, workers_ p = [w] ∧ dequeued p = (Some <$> started p) ++ in_hand w) →
  ∃ w, workers_ p' = [w] ∧ dequeued p' = (Some <$> started p') ++ in_hand w.
Proof.
  intros H (w & Hw & Hd).
  exec_cases H; rewrite ?Hw in *;
    repeat match goal with
      | G : [_] !! ?i = Some _ |- _ => destruct i as [|[|?]]; simplify_eq/=
      end;
    try (eexists; split; [reflexivity|]; simpl in *;
         rewrite ?fmap_app, ?app_nil_r in *; simpl; try done; congruence).
  - exists (match w with Blocked => Woken | _ => w end). split.
    + unfold notify_one. destruct pick as [|[|?]]; by destruct w.
    + rewrite Hd. by destruct w.
  - exists (if is_blocked w then Woken else w). split; [done|].
    rewrite Hd. by destruct w.
Qed.

Lemma exec_pop (a : Action) (p p' : Pool) :
  exec a p = Some p' →
  dequeued p' = dequeued p ∨
  ∃ t, queue_ p = Some t :: queue_ p' ∧ dequeued p' = dequeued p ++ [Some t].
Proof. intros H. exec_cases H; eauto. Qed.

(** C2. Along every schedule of a constructed pool: the functions pushed
    are the non-empty ones submitted, in the order of the calls; a
    transition that pops takes the front of the queue; the functions popped
    so far are, in order, among the pushed ones that precede the queued
    ones, and they are exactly those when [clear] was never called.  In a
    pool of one worker the tasks called so far are the functions popped so
    far, in order, but for the one in hand; so without [clear] the
    submission order is the call order, followed by the function in hand
    and the queue. *)
Theorem tasks_are_served_in_submission_order (host : Host) (n : N) (logger : Logger)
    (p0 : Pool) (acts : list Action) (p : Pool) :
  Simple_thread_pool host n logger = (Val tt, p0) →
  run acts p0 = Some p →
  submitted p = accepted acts ∧
  (∀ a p', exec a p = Some p' →
     dequeued p' = dequeued p ∨
     ∃ t, queue_ p = Some t :: queue_ p' ∧
          dequeued p' = dequeued p ++ [Some t]) ∧
  (∃ pre, accepted acts = pre ++ queue_ p ∧ dequeued p `sublist_of` pre) ∧
  (existsb is_clear acts = false → accepted acts = dequeued p ++ queue_ p) ∧
  (n = 1%N →
   ∃ w, workers_ p = [w] ∧
        dequeued p = (Some <$> started p) ++ in_hand w ∧
        (existsb is_clear acts = false →
         accepted acts = (Some <$> started p) ++ in_hand w ++ queue_ p)).
Proof.
  intros Hc Hrun.
  assert (H0 : submitted p0 = [] ∧ dequeued p0 = [] ∧ queue_ p0 = [] ∧
               started p0 = [] ∧
               workers_ p0 = replicate (N.to_nat n) Top).
  { by destruct (constructed_pool _ _ _ _ Hc) as [_ ->]. }
  destruct H0 as (Hs0 & Hd0 & Hq0 & Hst0 & Hw0).
  assert (Hsub : submitted p = accepted acts).
  { rewrite (run_submitted acts p0 p Hrun). by rewrite Hs0. }
  assert (Hfifo : existsb is_clear acts = false →
                  accepted acts = dequeued p ++ queue_ p).
  { intros Hnc. rewrite <- Hsub.
    eapply run_fifo; [exact Hrun|exact Hnc|]. by rewrite Hs0, Hd0, Hq0. }
  split; [exact Hsub|]. split; [intros a p'; apply exec_pop|].
  split; [|split; [exact Hfifo|]].
  - rewrite <- Hsub.
    eapply (run_invariant
              (λ p, ∃ pre, submitted p = pre ++ queue_ p ∧
                           dequeued p `sublist_of` pre));
      [| |exact Hrun].
    + intros a q q' Hq Ha. by eapply exec_order.
    + exists []. by rewrite Hs0, Hd0, Hq0.
  - intros ->.
    assert (Hone : ∃ w, workers_ p = [w] ∧
                        dequeued p = (Some <$> started p) ++ in_hand w).
    { eapply (run_invariant
                (λ p, ∃ w, workers_ p = [w] ∧
                           dequeued p = (Some <$> started p) ++ in_hand w));
        [| |exact Hrun].
      - intros a q q' Hq Ha. by eapply exec_single.
      - exists Top. by rewrite Hw0, Hd0, Hst0. }
    destruct Hone as (w & Hw & Hd). exists w.
    split; [exact Hw|]. split; [exact Hd|].
    intros Hnc. rewrite (Hfifo Hnc), Hd. by rewrite <- app_assoc.
Qed.

Lemma tasks_are_served_in_submission_order_witness :
  Simple_thread_pool roomy_host 1 None = (Val tt, pool_of_one) ∧
  run schedule_of_three pool_of_one = Some pool_after_three ∧
  started pool_after_three = [task_ok 1] ∧
  ∃ w, workers_ pool_after_three = [w] ∧
       [Some (task_ok 1); Some (task_bad 2 "boom"); Some (task_ok 3)] =
       (Some <$> started pool_after_three) ++ in_hand w ++
       queue_ pool_after_three.
Proof.
  assert (Hc : Simple_thread_pool roomy_host 1 None = (Val tt, pool_of_one))
    by (vm_compute; reflexivity).
  assert (Hrun : run schedule_of_three pool_of_one = Some pool_after_three)
    by (vm_compute; reflexivity).
  split; [exact Hc|]. split; [exact Hrun|]. split; [reflexivity|].
  destruct (tasks_are_served_in_submission_order roomy_host 1 None pool_of_one
              schedule_of_three pool_after_three Hc Hrun)
    as (_ & _ & _ & _ & Hone).
  destruct (Hone eq_refl) as (w & Hw & _ & Hacc).
  exists w. split; [exact Hw|]. exact (Hacc eq_refl).
Defined.

(** ** Clearing the queue *)

(** Nothing is called that was not called, in hand or queued before, or
    pushed by the transition. *)
Lemma exec_source (a : Action) (p p' : Pool) (f : Func) :
  exec a p = Some p' → source p' f → source p f ∨ f ∈ accepted [a].
Proof.
  intros H Hs. unfold source in *.
  exec_cases H;
    try (left; exact Hs);
    destruct Hs as [(t' & -> & Ht)|[(i' & t' & -> & Hw)|Hq]];
    lookups; simplify_eq/=;
    try match goal with E : queue_ _ = _, G : _ ∈ queue_ _ |- _ =>
          rewrite E in G
        end;
    try (left; eauto 8; fail).
  - apply elem_of_app in Hq as [Hq|Hq]; [by left; right; right|].
    apply list_elem_of_singleton in Hq as ->. right. by left.
  - by apply elem_of_nil in Hq.
  - left. right. right. by left.
  - left. right. right. by right.
  - apply elem_of_app in Ht as [Ht|Ht]; [left; left; eauto|].
    apply list_elem_of_singleton in Ht as ->. left. right. left. eauto.
Qed.

Lemma run_source (acts : list Action) (p p' : Pool) (f : Func) :
  run acts p = Some p' → source p' f → source p f ∨ f ∈ accepted acts.
Proof.
  revert p. induction acts as [|a acts IH]; intros p Hrun Hs;
    simpl in Hrun.
  - simplify_eq. by left.
  - destruct (exec a p) as [q|] eqn:Ha; [|done].
    assert (Hcons : accepted (a :: acts) = accepted [a] ++ accepted acts).
    { unfold accepted. simpl. by repeat case_match. }
    rewrite Hcons, elem_of_app.
    destruct (IH q Hrun Hs) as [Hq|Hq]; [|auto].
    destruct (exec_source a p q f Ha Hq); auto.
Qed.

(** C6. [clear()] cannot throw; it happens in one step, with the queue lock
    free; it empties the queue, so [queue_size()] is 0 right after, and
    touches nothing else: a worker with a task in hand still has it, calls
    it and comes back to the head of its loop, a worker inside a task
    finishes it.  Whatever the schedule after [clear], every task called was
    called before, or was in a worker's hand at the time of [clear], or is
    pushed by the schedule: no function that [clear] took off the queue is
    called on that account. *)
Theorem clear_discards_the_queue (p : Pool) :
  exec AClear p = (if alive p && queue_free p then Some (clear p) else None) ∧
  queue_ (clear p) = [] ∧
  queue_size (clear p) = 0%N ∧
  workers_ (clear p) = workers_ p ∧
  started (clear p) = started p ∧
  is_started_ (clear p) = is_started_ p ∧
  (∀ i t, workers_ p !! i = Some (Run t) →
     ∃ p', run [AWorker i; AWorker i] (clear p) = Some p' ∧
           workers_ p' !! i = Some Top ∧
           started p' = started p ++ [t]) ∧
  (∀ i t, workers_ p !! i = Some (Running t) →
     ∃ p', exec (AWorker i) (clear p) = Some p' ∧
           workers_ p' !! i = Some Top) ∧
  (∀ acts p' t,
     run acts (clear p) = Some p' → t ∈ started p' →
     t ∈ started p ∨ (∃ i, workers_ p !! i = Some (Run t)) ∨
     Some t ∈ accepted acts).
Proof.
  repeat split; try done.
  - intros i t Hw.
    assert (Hi : i < length (workers_ p)) by (by eapply lookup_lt_Some).
    cbn [run exec]. rewrite (step_call i t (clear p) Hw).
    set (p1 := set_worker i (Running t) _).
    assert (H1 : workers_ p1 !! i = Some (Running t))
      by (subst p1; simpl; by rewrite list_lookup_insert_eq).
    rewrite (step_return i t p1 H1). rewrite run_func_spec.
    eexists. split; [done|]. simpl. split.
    + apply list_lookup_insert_eq.
      subst p1. repeat case_match; simpl; by rewrite length_insert.
    + subst p1. by repeat case_match.
  - intros i t Hw.
    assert (Hi : i < length (workers_ p)) by (by eapply lookup_lt_Some).
    cbn [exec]. rewrite (step_return i t (clear p) Hw), run_func_spec.
    eexists. split; [done|]. simpl.
    apply list_lookup_insert_eq. by repeat case_match.
  - intros acts p' t Hrun Ht.
    destruct (run_source acts (clear p) p' (Some t) Hrun) as [Hs|Hs].
    + left. eauto.
    + destruct Hs as [(t' & [= <-] & Hin)|[(i & t' & [= <-] & Hw)|Hq]].
      * by left.
      * right. left. eauto.
      * by apply elem_of_nil in Hq.
    + by right; right.
Qed.

Lemma clear_discards_the_queue_witness :
  queue_ pool_before_clear = [Some (task_ok 2); Some (task_ok 3)] ∧
  workers_ pool_before_clear !! 0 = Some (Run (task_ok 1)) ∧
  run schedule_after_clear (clear pool_before_clear) = Some pool_after_clear ∧
  started pool_after_clear = [task_ok 1; task_ok 4] ∧
  queue_size (clear pool_before_clear) = 0%N ∧
  (∃ p', run [AWorker 0; AWorker 0] (clear pool_before_clear) = Some p' ∧
         workers_ p' !! 0 = Some Top ∧
         started p' = started pool_before_clear ++ [task_ok 1]) ∧
  (task_ok 4 ∈ started pool_before_clear ∨
   (∃ i, workers_ pool_before_clear !! i = Some (Run (task_ok 4))) ∨
   Some (task_ok 4) ∈ accepted schedule_after_clear).
Proof.
  assert (Hrun : run schedule_after_clear (clear pool_before_clear) =
                 Some pool_after_clear) by (vm_compute; reflexivity).
  destruct (clear_discards_the_queue pool_before_clear)
    as (_ & _ & Hsize & _ & _ & _ & Hhand & _ & Hlater).
  split; [reflexivity|]. split; [reflexivity|]. split; [exact Hrun|].
  split; [reflexivity|]. split; [exact Hsize|].
  split; [exact (Hhand 0 (task_ok 1) eq_refl)|].
  apply (Hlater schedule_after_clear pool_after_clear (task_ok 4) Hrun).
  vm_compute. right. left.
Defined.

(** ** Shutdown *)

Lemma stuck_spec (p : Pool) :
  stuck p = true →
  exec ADestructor p = None ∧ ∀ i, exec (AWorker i) p = None.
Proof.
  unfold stuck, own_actions. rewrite forallb_forall. intros H. split.
  - specialize (H ADestructor (or_introl eq_refl)).
    by destruct (exec ADestructor p).
  - intros i. destruct (decide (i < length (workers_ p))) as [Hi|Hi].
    + assert (Hin : In (AWorker i) (AWorker <$> seq 0 (length (workers_ p)))).
      { apply in_map, in_seq. lia. }
      specialize (H (AWorker i) (or_intror Hin)).
      by destruct (exec (AWorker i) p).
    + simpl. unfold wait_and_run.
      rewrite lookup_ge_None_2; [done|lia].
Qed.

(** The destructor joins the workers in order and returns only when every
    worker has returned. *)
Lemma exec_joined (a : Action) (p p' : Pool) :
  exec a p = Some p' → joined p → joined p'.
Proof.
  unfold joined. intros H [Hj Hd].
  exec_cases H; (split; [intros k' i' w' Hk' Hi' Hw'|intros i' w' Hk' Hw']);
    lookups; simplify_eq/=; eauto;
    try match goal with
        | G : workers_ _ !! ?j = Some ?v |- _ =>
            by (assert (v = Exited) by eauto)
        end;
    try lia.
  - destruct (decide (i' = k)) as [->|Hne]; [congruence|].
    apply (Hj k i' w' eq_refl); [lia|done].
  - apply (Hj k i' w' eq_refl); [|done].
    apply lookup_lt_Some in Hw'.
    match goal with G : workers_ _ !! k = None |- _ =>
      apply lookup_ge_None in G end.
    lia.
Qed.

Lemma destructor_joins_every_worker (host : Host) (n : N) (logger : Logger) (p0 : Pool)
    (acts : list Action) (p : Pool) :
  Simple_thread_pool host n logger = (Val tt, p0) →
  run acts p0 = Some p →
  dtor_ p = DDone →
  ∀ i w, workers_ p !! i = Some w → w = Exited.
Proof.
  intros Hc Hrun Hd i w Hw.
  assert (Hj : joined p).
  { eapply (run_invariant joined); [| |exact Hrun].
    - intros a q q' Hq Ha. by eapply exec_joined.
    - destruct (constructed_pool _ _ _ _ Hc) as [_ ->]. by split. }
  destruct Hj as [_ Hj]. eauto.
Qed.

(** C1 (the code departs from the claim).  In a pool of one worker with an
    empty queue, let the destructor lock [work_mutex_], clear the flag and
    broadcast after the worker, holding [queue_mutex_], has found the wait
    predicate false and before it blocks.  The state reached has the flag
    cleared, the worker blocked on the condition variable and the destructor
    at the join of that worker; no thread of the pool can move. *)
Theorem destructor_misses_a_wakeup :
  Simple_thread_pool roomy_host 1 None = (Val tt, pool_of_one) ∧
  run schedule_missed_wakeup pool_of_one = Some pool_deadlocked ∧
  workers_ pool_deadlocked = [Blocked] ∧
  is_started_ pool_deadlocked = false ∧
  queue_mutex_ pool_deadlocked = None ∧
  dtor_ pool_deadlocked = DJoin 0 ∧
  stuck pool_deadlocked = true ∧
  exec ADestructor pool_deadlocked = None ∧
  exec (AWorker 0) pool_deadlocked = None.
Proof. vm_compute. repeat split; reflexivity. Qed.

(** When the worker is blocked before the destructor starts, the broadcast
    reaches it and the destructor returns. *)
Example destructor_returns_after_wait :
  ∃ p, run schedule_clean_shutdown pool_of_one = Some p ∧
       workers_ p = [Exited] ∧ dtor_ p = DDone.
Proof. eexists. vm_compute. repeat split; reflexivity. Qed.

(** ** Thread affinity *)

Lemma CPU_SET_in_range (cpu : N) :
  (cpu < CPU_SETSIZE)%N →
  CPU_SET cpu CPU_ZERO = Z.shiftl 1 (Z.of_N cpu).
Proof.
  intros Hc. unfold CPU_SET, CPU_ZERO, sizeof_cpu_set_t, CPU_SETSIZE in *.
  assert (Hlt : (cpu / 8 <? 1024 / 8)%N = true).
  { apply N.ltb_lt. apply N.Div0.div_lt_upper_bound.
    change (8 * (1024 / 8))%N with 1024%N. exact Hc. }
  rewrite Hlt. apply Z.lor_0_l.
Qed.

Lemma testbit_single (cpu : N) (k : Z) :
  Z.testbit (Z.shiftl 1 (Z.of_N cpu)) k = true ↔ k = Z.of_N cpu.
Proof.
  rewrite Z.shiftl_1_l.
  destruct (Z.neg_nonneg_cases k) as [Hk|Hk].
  - rewrite Z.testbit_neg_r by done. split; [done|lia].
  - rewrite Z.pow2_bits_eqb by lia. rewrite Z.eqb_eq. split; congruence.
Qed.

(** What [set_affinity] does within the capacity of a [cpu_set_t].  With a
    null handle, or a cpu index not below the reported
    hardware concurrency, [set_affinity] returns the invalid-argument error
    and calls the OS not at all.  Otherwise it calls
    [pthread_setaffinity_np] exactly once, for that handle, with the size of
    a [cpu_set_t] and the mask it built, and returns what the call returned,
    as the value of an error code of the generic category (so 0 exactly when
    the OS reported success).  When the cpu index is below [CPU_SETSIZE] the
    mask has the bit of that index set and no other. *)
Theorem set_affinity_spec (hardware_concurrency : N) (os : OsCall → Z)
    (handle : pthread_t) (cpu : N) :
  (handle = 0%N ∨ (hardware_concurrency ≤ cpu)%N →
   set_affinity hardware_concurrency os handle cpu = (invalid_argument, [])) ∧
  (handle ≠ 0%N → (cpu < hardware_concurrency)%N →
   ∃ set,
     let c := mkOsCall handle sizeof_cpu_set_t set in
     set_affinity hardware_concurrency os handle cpu =
       (mk_error_code (os c) generic_category, [c]) ∧
     set = CPU_SET cpu CPU_ZERO ∧
     ((cpu < CPU_SETSIZE)%N →
      (∀ k, Z.testbit set k = true ↔ k = Z.of_N cpu) ∧
      (∀ c', CPU_ISSET c' set = true ↔ c' = cpu))).
Proof.
  unfold set_affinity. split.
  - intros [->|Hc]; [done|].
    rewrite (proj2 (N.ltb_ge cpu hardware_concurrency) Hc).
    by rewrite andb_false_r.
  - intros Hh Hc.
    rewrite (proj2 (N.eqb_neq handle 0) Hh), (proj2 (N.ltb_lt _ _) Hc).
    simpl. eexists. split; [reflexivity|]. split; [reflexivity|].
    intros Hsz. rewrite (CPU_SET_in_range cpu Hsz).
    split; [apply testbit_single|].
    intros c'. unfold CPU_ISSET. rewrite andb_true_iff, testbit_single.
    split.
    + intros [_ Heq]. by apply N2Z.inj.
    + intros ->. split; [|done].
      unfold sizeof_cpu_set_t, CPU_SETSIZE in *. apply N.ltb_lt.
      apply N.Div0.div_lt_upper_bound.
      change (8 * (1024 / 8))%N with 1024%N. exact Hsz.
Qed.

Lemma set_affinity_spec_witness :
  (1%N ≠ 0%N) ∧ (3 < 8)%N ∧ (3 < CPU_SETSIZE)%N ∧
  set_affinity 8 os_rejecting_empty_mask 1%N 3%N =
    (mk_error_code 0%Z generic_category, [mkOsCall 1%N 128%N 8%Z]) ∧
  set_affinity 8 os_rejecting_empty_mask 0%N 3%N = (invalid_argument, []) ∧
  set_affinity 8 os_rejecting_empty_mask 1%N 8%N = (invalid_argument, []) ∧
  ∃ set,
    set = CPU_SET 3%N CPU_ZERO ∧
    ∀ k, Z.testbit set k = true ↔ k = 3%Z.
Proof.
  assert (H1 : 1%N ≠ 0%N) by done.
  assert (H2 : (3 < 8)%N) by reflexivity.
  assert (H3 : (3 < CPU_SETSIZE)%N) by reflexivity.
  split; [exact H1|]. split; [exact H2|]. split; [exact H3|].
  split; [reflexivity|].
  split; [exact (proj1 (set_affinity_spec 8 os_rejecting_empty_mask 0%N 3%N)
                   (or_introl eq_refl))|].
  split; [apply (proj1 (set_affinity_spec 8 os_rejecting_empty_mask 1%N 8%N));
          right; reflexivity|].
  destruct (proj2 (set_affinity_spec 8 os_rejecting_empty_mask 1%N 3%N) H1 H2)
    as (set & _ & Hset & Hbits).
  exists set. split; [exact Hset|]. exact (proj1 (Hbits H3)).
Defined.

(** No mask built by [set_affinity] holds exactly the CPU asked for on every
    host: where 2048 CPUs are reported, the call for CPU 1500 passes the
    check and hands the OS a mask without the bit of CPU 1500. *)
Lemma set_affinity_beyond_cpu_setsize :
  ¬ (∀ hardware_concurrency os handle cpu,
       handle ≠ 0%N → (cpu < hardware_concurrency)%N →
       ∃ set,
         snd (set_affinity hardware_concurrency os handle cpu) =
           [mkOsCall handle sizeof_cpu_set_t set] ∧
         ∀ k, Z.testbit set k = true ↔ k = Z.of_N cpu).
Proof.
  intros H.
  destruct (H 2048%N os_rejecting_empty_mask 1%N 1500%N) as (set & Hcall & Hb);
    [done|reflexivity|].
  vm_compute in Hcall. injection Hcall as <-.
  destruct (Hb 1500%Z) as [_ Hset]. specialize (Hset eq_refl).
  vm_compute in Hset. discriminate.
Qed.

(** C8 (the code departs from the claim).  On a host that reports 2048 CPUs
    the call for a non-null handle and CPU 1500 passes the check of
    [set_affinity], since 1500 is below the reported hardware concurrency.
    [CPU_SET] then leaves the mask empty, because a [cpu_set_t] has room
    for [CPU_SETSIZE] CPUs only: the one call of [pthread_setaffinity_np]
    is made with a mask in which the bit of CPU 1500 is not set, and what
    the OS answers to that empty mask is returned; from an OS that rejects
    an empty mask it is [EINVAL]. *)
Theorem set_affinity_drops_cpu_beyond_setsize :
  (1500 <? 2048)%N = true ∧
  CPU_SET 1500 CPU_ZERO = 0%Z ∧
  Z.testbit (CPU_SET 1500 CPU_ZERO) 1500 = false ∧
  (∀ os,
     set_affinity 2048 os 1%N 1500%N =
       (mk_error_code (os (mkOsCall 1%N sizeof_cpu_set_t 0%Z))
                      generic_category,
        [mkOsCall 1%N sizeof_cpu_set_t 0%Z])) ∧
  set_affinity 2048 os_rejecting_empty_mask 1%N 1500%N =
    (invalid_argument, [mkOsCall 1%N 128%N 0%Z]).
Proof. repeat split. Qed.

(** * Further properties *)

(** ** Locks, flag and wake-ups *)

Lemma members_sync_inv (host : Host) (n : N) (logger : Logger) (p0 : Pool) :
  Simple_thread_pool host n logger = (Val tt, p0) → sync_inv p0.
Proof.
  intros [Hn ->]%constructed_pool. split; simpl; try done.
  destruct (N.to_nat n) eqn:E; [lia|done].
Qed.

Lemma lookup_notify_all_fwd (ws : list Worker) (i : nat) (w : Worker) :
  ws !! i = Some w →
  notify_all ws !! i = Some (if is_blocked w then Woken else w).
Proof. intros H. unfold notify_all. by rewrite list_lookup_fmap, H. Qed.

Lemma lookup_notify_one_fwd (pick : nat) (ws : list Worker) (i : nat)
    (w : Worker) :
  ws !! i = Some w →
  notify_one pick ws !! i = Some w ∨
  (w = Blocked ∧ notify_one pick ws !! i = Some Woken).
Proof.
  intros H. unfold notify_one.
  destruct (ws !! pick) as [[]|] eqn:Hp; auto.
  destruct (decide (pick = i)) as [->|Hne].
  - right. split; [congruence|].
    apply list_lookup_insert_eq. by eapply lookup_lt_Some.
  - left. by rewrite list_lookup_insert_ne.
Qed.

(** Finds the worker at an index of an updated worker set. *)
Ltac find_worker i :=
  match goal with
  | |- context [<[i:=_]> _ !! i] =>
      rewrite list_lookup_insert_eq by (by eapply lookup_lt_Some)
  | |- context [<[?j:=_]> _ !! i] =>
      destruct (decide (j = i)) as [->|?];
      [rewrite list_lookup_insert_eq by (by eapply lookup_lt_Some)
      |rewrite list_lookup_insert_ne by done]
  end.

Lemma exec_holder (a : Action) (p p' : Pool) :
  pool_inv p →
  (∀ i, queue_mutex_ p = Some i →
        ∃ w, workers_ p !! i = Some w ∧ holds_queue_mutex w = true) →
  exec a p = Some p' →
  ∀ i, queue_mutex_ p' = Some i →
       ∃ w, workers_ p' !! i = Some w ∧ holds_queue_mutex w = true.
Proof.
  intros [Ho Hr Hf Ha] Hh H i' Hm'.
  exec_cases H.
  all: try match goal with
         | Hw : workers_ ?p !! _ = Some Test, Hq : queue_ ?p = [] |- _ =>
             destruct (Hr _ Hw); congruence
         | Hq : queue_ ?p = None :: _ |- _ =>
             destruct (Hf None) as [? [=]]; rewrite ?Hq; by left
         end.
  all: try done.
  all: try (destruct (Hh i' Hm') as (w0 & Hw0 & Hh0)).
  all: try (by eauto).
  all: try (find_worker i'; simplify_eq/=; eauto; fail).
  rewrite (lookup_notify_all_fwd _ _ _ Hw0). destruct w0; try done; eauto.
Qed.

Lemma wait_predicate_false (p : Pool) :
  wait_predicate p = false → queue_ p = [] ∧ is_started_ p = true.
Proof.
  unfold wait_predicate.
  rewrite orb_false_iff, !negb_false_iff, bool_decide_eq_true. done.
Qed.

Lemma exec_wait (a : Action) (p p' : Pool) :
  pool_inv p →
  (∀ i, workers_ p !! i = Some Wait → queue_ p = []) →
  exec a p = Some p' →
  ∀ i, workers_ p' !! i = Some Wait → queue_ p' = [].
Proof.
  intros [Ho Hr Hf Ha] Hw H i' Hw'.
  exec_cases H; lookups; inv_facts Ho Hr; simplify_eq/=;
    try done; try congruence; eauto.
  match goal with G : wait_predicate _ = false |- _ =>
    by apply wait_predicate_false in G as [? _] end.
Qed.

Lemma exec_awake (a : Action) (p p' : Pool) :
  pool_inv p →
  (∀ i, workers_ p !! i = Some Wait → queue_ p = []) →
  workers_ p ≠ [] →
  (queue_ p ≠ [] →
   ∃ i w, workers_ p !! i = Some w ∧ is_blocked w = false) →
  exec a p = Some p' →
  queue_ p' ≠ [] →
  ∃ i w, workers_ p' !! i = Some w ∧ is_blocked w = false.
Proof.
  intros [Ho Hr Hf Ha] Hw Hne Hk H Hq'.
  exec_cases H; try done; try (by eauto).
  all: try match goal with
         | G : workers_ _ !! ?j = Some _ |- context [<[?j:=?v]> _] =>
             by (exists j, v; split;
                 [apply list_lookup_insert_eq; by eapply lookup_lt_Some
                 |done])
         end.
  - unfold valid_pick in *. unfold notify_one.
    destruct (workers_ p !! pick) as [w|] eqn:Hp.
    + destruct (is_blocked w) eqn:Hb.
      * destruct w; try done. exists pick, Woken. split; [|done].
        apply list_lookup_insert_eq. by eapply lookup_lt_Some.
      * exists pick, w. by destruct w.
    + destruct (workers_ p) as [|w ws] eqn:Hws; [done|].
      exists 0, w. split; [done|].
      match goal with G : negb _ = true |- _ =>
        apply negb_true_iff in G; simpl in G;
        by apply orb_false_iff in G as [? _] end.
  - destruct (workers_ p) as [|w ws] eqn:Hws; [done|].
    exists 0, (if is_blocked w then Woken else w). split; [done|].
    by destruct w.
  - match goal with G : workers_ _ !! _ = Some Wait |- _ =>
      by rewrite (Hw _ G) in Hq' end.
Qed.

Lemma exec_flag (a : Action) (p p' : Pool) :
  is_started_ p = before_store (dtor_ p) →
  work_mutex_ p = in_destructor (dtor_ p) →
  exec a p = Some p' →
  is_started_ p' = before_store (dtor_ p') ∧
  work_mutex_ p' = in_destructor (dtor_ p').
Proof.
  intros Hfl Hwm H. exec_cases H; try done; split; congruence.
Qed.

Lemma exec_preserves_sync_inv (a : Action) (p p' : Pool) :
  pool_inv p → sync_inv p → exec a p = Some p' → sync_inv p'.
Proof.
  intros Hi [Hh Hw Hk Hne Hfl Hwm] H.
  destruct (exec_flag a p p' Hfl Hwm H) as [Hfl' Hwm'].
  split; [| | | |exact Hfl'|exact Hwm'].
  - by eapply exec_holder.
  - by eapply exec_wait.
  - by eapply exec_awake.
  - intros Hnil. apply Hne. apply length_zero_iff_nil.
    rewrite <- (exec_workers_length a p p' H). by rewrite Hnil.
Qed.

Lemma reachable_sync_inv (host : Host) (n : N) (logger : Logger) (p0 : Pool)
    (acts : list Action) (p : Pool) :
  Simple_thread_pool host n logger = (Val tt, p0) →
  run acts p0 = Some p → pool_inv p ∧ sync_inv p.
Proof.
  intros Hc Hrun.
  eapply (run_invariant (λ p, pool_inv p ∧ sync_inv p)); [| |exact Hrun].
  - intros a q q' [Hq1 Hq2] Ha. split.
    + by eapply exec_preserves_inv.
    + by eapply exec_preserves_sync_inv.
  - split; [by eapply members_inv | by eapply members_sync_inv].
Qed.

(** X1. In every state a constructed pool can reach, at most one worker is
    inside the critical section of [wait_and_run]; [queue_mutex_] is held by
    worker [i] exactly when worker [i] is there; so a worker that is about
    to call a task, or is inside one, does not hold the lock. *)
Theorem queue_mutex_discipline (host : Host) (n : N) (logger : Logger) (p0 : Pool)
    (acts : list Action) (p : Pool) :
  Simple_thread_pool host n logger = (Val tt, p0) →
  run acts p0 = Some p →
  (∀ i j wi wj,
     workers_ p !! i = Some wi → workers_ p !! j = Some wj →
     holds_queue_mutex wi = true → holds_queue_mutex wj = true → i = j) ∧
  (∀ i w, workers_ p !! i = Some w →
          (queue_mutex_ p = Some i ↔ holds_queue_mutex w = true)) ∧
  (∀ i t, workers_ p !! i = Some (Run t) ∨ workers_ p !! i = Some (Running t) →
          queue_mutex_ p ≠ Some i).
Proof.
  intros Hc Hrun.
  destruct (reachable_sync_inv host n logger p0 acts p Hc Hrun)
    as [[Ho _ _ _] [Hh _ _ _ _ _]].
  assert (Hiff : ∀ i w, workers_ p !! i = Some w →
                        (queue_mutex_ p = Some i ↔ holds_queue_mutex w = true)).
  { intros i w Hw. split; [|by apply Ho].
    intros Hm. destruct (Hh i Hm) as (w' & Hw' & Hh'). congruence. }
  split; [|split; [exact Hiff|]].
  - intros i j wi wj Hi Hj Hhi Hhj.
    pose proof (Ho i wi Hi Hhi). pose proof (Ho j wj Hj Hhj). congruence.
  - intros i t [Hw|Hw] Hm; by apply (Hiff i _ Hw) in Hm.
Qed.

Lemma queue_mutex_discipline_witness :
  Simple_thread_pool roomy_host 2 None = (Val tt, pool_of_two) ∧
  run schedule_two_busy pool_of_two = Some pool_two_busy ∧
  workers_ pool_two_busy = [Running (task_ok 1); Pred] ∧
  (queue_mutex_ pool_two_busy = Some 1 ↔ holds_queue_mutex Pred = true) ∧
  queue_mutex_ pool_two_busy ≠ Some 0.
Proof.
  assert (Hc : Simple_thread_pool roomy_host 2 None = (Val tt, pool_of_two))
    by (vm_compute; reflexivity).
  assert (Hrun : run schedule_two_busy pool_of_two = Some pool_two_busy)
    by (vm_compute; reflexivity).
  split; [exact Hc|]. split; [exact Hrun|]. split; [reflexivity|].
  destruct (queue_mutex_discipline roomy_host 2 None pool_of_two schedule_two_busy
              pool_two_busy Hc Hrun) as (_ & Hiff & Hrunning).
  split; [exact (Hiff 1 Pred eq_refl)|].
  exact (Hrunning 0 (task_ok 1) (or_intror eq_refl)).
Defined.

Lemma exec_flag_down (a : Action) (p p' : Pool) :
  exec a p = Some p' → is_started_ p = false → is_started_ p' = false.
Proof. intros H Hs. exec_cases H; congruence. Qed.

(** X2. The running flag is one-way.  In every state a constructed pool can
    reach it is set exactly as long as the destructor has not executed its
    store, and from a state where it is cleared no schedule leads to a
    state where it is set. *)
Theorem running_flag_is_one_way (host : Host) (n : N) (logger : Logger) (p0 : Pool)
    (acts : list Action) (p : Pool) :
  Simple_thread_pool host n logger = (Val tt, p0) →
  run acts p0 = Some p →
  is_started_ p = before_store (dtor_ p) ∧
  ∀ acts' p', run acts' p = Some p' → is_started_ p = false →
              is_started_ p' = false.
Proof.
  intros Hc Hrun.
  destruct (reachable_sync_inv host n logger p0 acts p Hc Hrun)
    as [_ [_ _ _ _ Hfl _]].
  split; [exact Hfl|].
  intros acts' p' Hrun' Hs.
  eapply (run_invariant (λ p, is_started_ p = false)); [|exact Hs|exact Hrun'].
  intros a q q' Hq Ha. by eapply exec_flag_down.
Qed.

Lemma running_flag_is_one_way_witness :
  Simple_thread_pool roomy_host 2 None = (Val tt, pool_of_two) ∧
  run schedule_into_destructor pool_of_two = Some pool_in_destructor ∧
  dtor_ pool_in_destructor = DJoin 0 ∧
  is_started_ pool_in_destructor = false ∧
  ∀ acts' p', run acts' pool_in_destructor = Some p' →
              is_started_ p' = false.
Proof.
  assert (Hc : Simple_thread_pool roomy_host 2 None = (Val tt, pool_of_two))
    by (vm_compute; reflexivity).
  assert (Hrun : run schedule_into_destructor pool_of_two =
                 Some pool_in_destructor) by (vm_compute; reflexivity).
  split; [exact Hc|]. split; [exact Hrun|]. split; [reflexivity|].
  destruct (running_flag_is_one_way roomy_host 2 None pool_of_two
              schedule_into_destructor pool_in_destructor Hc Hrun)
    as [Hfl Hdown].
  split; [exact Hfl|].
  intros acts' p' Hrun'. exact (Hdown acts' p' Hrun' Hfl).
Defined.

(** X3. The destructor holds [work_mutex_] from its first step until it
    returns, so in every state a constructed pool can reach a call of
    [size()] is served exactly when the destructor has not started: during
    the destruction it cannot get the lock, and after it the pool is gone.
    Where it is served it changes nothing. *)
Theorem size_waits_for_the_destructor (host : Host) (n : N) (logger : Logger) (p0 : Pool)
    (acts : list Action) (p : Pool) :
  Simple_thread_pool host n logger = (Val tt, p0) →
  run acts p0 = Some p →
  work_mutex_ p = in_destructor (dtor_ p) ∧
  exec ASize p = match dtor_ p with DEntry => Some p | _ => None end.
Proof.
  intros Hc Hrun.
  destruct (reachable_sync_inv host n logger p0 acts p Hc Hrun)
    as [_ [_ _ _ _ _ Hwm]].
  split; [exact Hwm|].
  simpl. unfold alive. rewrite Hwm. by destruct (dtor_ p).
Qed.

Lemma size_waits_for_the_destructor_witness :
  Simple_thread_pool roomy_host 2 None = (Val tt, pool_of_two) ∧
  run schedule_into_destructor pool_of_two = Some pool_in_destructor ∧
  work_mutex_ pool_in_destructor = true ∧
  exec ASize pool_in_destructor = None ∧
  exec ASize pool_of_two = Some pool_of_two.
Proof.
  assert (Hc : Simple_thread_pool roomy_host 2 None = (Val tt, pool_of_two))
    by (vm_compute; reflexivity).
  assert (Hrun : run schedule_into_destructor pool_of_two =
                 Some pool_in_destructor) by (vm_compute; reflexivity).
  split; [exact Hc|]. split; [exact Hrun|].
  destruct (size_waits_for_the_destructor roomy_host 2 None pool_of_two
              schedule_into_destructor pool_in_destructor Hc Hrun)
    as [Hwm Hsize].
  split; [exact Hwm|]. split; [exact Hsize|]. reflexivity.
Defined.

(** ** What shutdown leaves undone *)

Lemma exec_stopped (a : Action) (p p' : Pool) :
  exec a p = Some p' → is_started_ p = false →
  dequeued p' = dequeued p ∧
  ∀ t, t ∈ started p' ∨ (∃ i, workers_ p' !! i = Some (Run t)) →
       t ∈ started p ∨ (∃ i, workers_ p !! i = Some (Run t)).
Proof.
  intros H Hs.
  exec_cases H; try congruence; (split; [done|]);
    intros t' [Ht|[i' Hw]]; lookups; simplify_eq/=; eauto.
  apply elem_of_app in Ht as [Ht|Ht]; [by left|].
  apply list_elem_of_singleton in Ht as ->. eauto.
Qed.

(** X4. Shutdown does not drain the queue.  From a state in which the
    running flag is cleared, whatever the schedule, no function is taken off
    the queue any more, and every task called later was already in a
    worker's hand: what is queued when the flag is cleared, and what is
    submitted afterwards, is never called. *)
Theorem shutdown_does_not_drain (acts : list Action) (p p' : Pool) :
  is_started_ p = false →
  run acts p = Some p' →
  is_started_ p' = false ∧
  dequeued p' = dequeued p ∧
  ∀ t, t ∈ started p' →
       t ∈ started p ∨ (∃ i, workers_ p !! i = Some (Run t)).
Proof.
  intros Hs Hrun.
  assert (Hall :
    is_started_ p' = false ∧ dequeued p' = dequeued p ∧
    ∀ t, t ∈ started p' ∨ (∃ i, workers_ p' !! i = Some (Run t)) →
         t ∈ started p ∨ (∃ i, workers_ p !! i = Some (Run t))).
  { eapply (run_invariant
              (λ q, is_started_ q = false ∧ dequeued q = dequeued p ∧
                    ∀ t, t ∈ started q ∨
                         (∃ i, workers_ q !! i = Some (Run t)) →
                         t ∈ started p ∨
                         (∃ i, workers_ p !! i = Some (Run t))));
      [| |exact Hrun].
    - intros a q q' (Hq1 & Hq2 & Hq3) Ha.
      destruct (exec_stopped a q q' Ha Hq1) as [Hd Hx].
      split; [by eapply exec_flag_down|]. split; [congruence|].
      intros t Ht. apply Hq3, Hx, Ht.
    - auto. }
  destruct Hall as (H1 & H2 & H3). split; [done|]. split; [done|].
  intros t Ht. apply H3. by left.
Qed.

Lemma shutdown_does_not_drain_witness :
  is_started_ pool_in_destructor = false ∧
  run schedule_after_store pool_in_destructor = Some pool_after_store ∧
  queue_ pool_in_destructor = [Some (task_ok 1)] ∧
  workers_ pool_after_store = [Exited; Exited] ∧
  dequeued pool_after_store = dequeued pool_in_destructor ∧
  ∀ t, t ∈ started pool_after_store →
       t ∈ started pool_in_destructor ∨
       (∃ i, workers_ pool_in_destructor !! i = Some (Run t)).
Proof.
  assert (Hs : is_started_ pool_in_destructor = false) by reflexivity.
  assert (Hrun : run schedule_after_store pool_in_destructor =
                 Some pool_after_store) by (vm_compute; reflexivity).
  split; [exact Hs|]. split; [exact Hrun|].
  split; [reflexivity|]. split; [reflexivity|].
  exact (proj2 (shutdown_does_not_drain schedule_after_store
                  pool_in_destructor pool_after_store Hs Hrun)).
Defined.

(** ** Every function popped is called once *)

Lemma hands_insert (ws : list Worker) (i : nat) (w w' : Worker) :
  ws !! i = Some w →
  hands (<[i:=w']> ws) ++ in_hand w ≡ₚ hands ws ++ in_hand w'.
Proof.
  intros Hw. unfold hands.
  rewrite insert_take_drop by (by eapply lookup_lt_Some).
  rewrite <- (take_drop_middle ws i w Hw) at 3.
  rewrite !bind_app, !bind_cons. solve_Permutation.
Qed.

Lemma hands_insert_same (ws : list Worker) (i : nat) (w w' : Worker) :
  ws !! i = Some w → in_hand w = in_hand w' →
  hands (<[i:=w']> ws) ≡ₚ hands ws.
Proof.
  intros Hw Heq. pose proof (hands_insert ws i w w' Hw) as H.
  rewrite Heq in H. by apply (inj (.++ in_hand w')) in H.
Qed.

Lemma hands_notify_all (ws : list Worker) :
  hands (notify_all ws) = hands ws.
Proof.
  unfold hands, notify_all. rewrite list_fmap_bind.
  apply list_bind_ext; [|done]. intros w. simpl. by destruct w.
Qed.

Lemma hands_notify_one (pick : nat) (ws : list Worker) :
  hands (notify_one pick ws) ≡ₚ hands ws.
Proof.
  unfold notify_one. destruct (ws !! pick) as [w|] eqn:Hp; [|done].
  destruct w; try done. by apply (hands_insert_same ws pick Blocked).
Qed.

Lemma exec_once (a : Action) (p p' : Pool) :
  exec a p = Some p' →
  (Some <$> started p) ++ hands (workers_ p) ≡ₚ dequeued p →
  (Some <$> started p') ++ hands (workers_ p') ≡ₚ dequeued p'.
Proof.
  intros H Hi.
  exec_cases H; try done;
    rewrite ?hands_notify_all, ?hands_notify_one; try done;
    try (rewrite hands_insert_same; [done|eassumption|done]).
  - pose proof (hands_insert (workers_ p) i Test (Run t) H0) as Hh.
    simpl in Hh. rewrite app_nil_r in Hh. rewrite Hh, <- Hi.
    by rewrite app_assoc.
  - pose proof (hands_insert (workers_ p) i (Run t) (Running t) H0) as Hh.
    simpl in Hh. rewrite app_nil_r in Hh. rewrite <- Hi, <- Hh, fmap_app.
    simpl. solve_Permutation.
Qed.

(** X5. No function is lost or called twice between the queue and its call.
    In every state a constructed pool of any size can reach, the tasks
    called so far together with the functions the workers have in hand are,
    up to order, exactly the functions popped so far; hence, when [clear]
    was never called, the functions pushed are, up to order, the tasks
    called, the functions in hand and the functions still queued. *)
Theorem popped_functions_are_called_once (host : Host) (n : N) (logger : Logger)
    (p0 : Pool) (acts : list Action) (p : Pool) :
  Simple_thread_pool host n logger = (Val tt, p0) →
  run acts p0 = Some p →
  (Some <$> started p) ++ hands (workers_ p) ≡ₚ dequeued p ∧
  (existsb is_clear acts = false →
   accepted acts ≡ₚ
   (Some <$> started p) ++ hands (workers_ p) ++ queue_ p).
Proof.
  intros Hc Hrun.
  assert (H0 : submitted p0 = [] ∧ dequeued p0 = [] ∧ queue_ p0 = [] ∧
               started p0 = [] ∧
               workers_ p0 = replicate (N.to_nat n) Top).
  { by destruct (constructed_pool _ _ _ _ Hc) as [_ ->]. }
  destruct H0 as (Hs0 & Hd0 & Hq0 & Hst0 & Hw0).
  assert (Honce : (Some <$> started p) ++ hands (workers_ p) ≡ₚ dequeued p).
  { eapply (run_invariant
              (λ p, (Some <$> started p) ++ hands (workers_ p) ≡ₚ
                    dequeued p)); [| |exact Hrun].
    - intros a q q' Hq Ha. by eapply exec_once.
    - rewrite Hst0, Hd0, Hw0. simpl. unfold hands. clear.
      induction (N.to_nat n) as [|k IH]; [done|]. simpl. exact IH. }
  split; [exact Honce|].
  intros Hnc.
  assert (Hfifo : submitted p = dequeued p ++ queue_ p).
  { eapply run_fifo; [exact Hrun|exact Hnc|]. by rewrite Hs0, Hd0, Hq0. }
  assert (Hacc : accepted acts = submitted p).
  { rewrite (run_submitted acts p0 p Hrun). by rewrite Hs0. }
  rewrite Hacc, Hfifo, app_assoc. by rewrite Honce.
Qed.

Lemma popped_functions_are_called_once_witness :
  Simple_thread_pool roomy_host 2 None = (Val tt, pool_of_two) ∧
  run schedule_two_busy pool_of_two = Some pool_two_busy ∧
  existsb is_clear schedule_two_busy = false ∧
  (Some <$> started pool_two_busy) ++ hands (workers_ pool_two_busy) ≡ₚ
    dequeued pool_two_busy ∧
  accepted schedule_two_busy ≡ₚ
    (Some <$> started pool_two_busy) ++ hands (workers_ pool_two_busy) ++
    queue_ pool_two_busy.
Proof.
  assert (Hc : Simple_thread_pool roomy_host 2 None = (Val tt, pool_of_two))
    by (vm_compute; reflexivity).
  assert (Hrun : run schedule_two_busy pool_of_two = Some pool_two_busy)
    by (vm_compute; reflexivity).
  split; [exact Hc|]. split; [exact Hrun|]. split; [reflexivity|].
  destruct (popped_functions_are_called_once roomy_host 2 None pool_of_two
              schedule_two_busy pool_two_busy Hc Hrun) as [Honce Hall].
  split; [exact Honce | exact (Hall eq_refl)].
Defined.

(** X6. [queue_size()] counts what was pushed and not popped: in every state
    a constructed pool can reach it is at most the number of non-empty
    functions submitted less the number of functions popped, and exactly
    that when [clear] was never called. *)
Theorem queue_size_accounting (host : Host) (n : N) (logger : Logger) (p0 : Pool)
    (acts : list Action) (p : Pool) :
  Simple_thread_pool host n logger = (Val tt, p0) →
  run acts p0 = Some p →
  (queue_size p + N.of_nat (length (dequeued p)) ≤
   N.of_nat (length (accepted acts)))%N ∧
  (existsb is_clear acts = false →
   (queue_size p + N.of_nat (length (dequeued p)) =
    N.of_nat (length (accepted acts)))%N).
Proof.
  intros Hc Hrun.
  assert (H0 : submitted p0 = [] ∧ dequeued p0 = [] ∧ queue_ p0 = []).
  { by destruct (constructed_pool _ _ _ _ Hc) as [_ ->]. }
  destruct H0 as (Hs0 & Hd0 & Hq0).
  assert (Hacc : accepted acts = submitted p).
  { rewrite (run_submitted acts p0 p Hrun). by rewrite Hs0. }
  unfold queue_size. rewrite Hacc. split.
  - assert (Hord : ∃ pre, submitted p = pre ++ queue_ p ∧
                          dequeued p `sublist_of` pre).
    { eapply (run_invariant
                (λ p, ∃ pre, submitted p = pre ++ queue_ p ∧
                             dequeued p `sublist_of` pre));
        [| |exact Hrun].
      - intros a q q' Hq Ha. by eapply exec_order.
      - exists []. by rewrite Hs0, Hd0, Hq0. }
    destruct Hord as (pre & -> & Hsub).
    apply sublist_length in Hsub. rewrite List.length_app. lia.
  - intros Hnc.
    rewrite (run_fifo acts p0 p Hrun Hnc); [|by rewrite Hs0, Hd0, Hq0].
    rewrite List.length_app. lia.
Qed.

Lemma queue_size_accounting_witness :
  Simple_thread_pool roomy_host 1 None = (Val tt, pool_of_one) ∧
  run schedule_of_three pool_of_one = Some pool_after_three ∧
  existsb is_clear schedule_of_three = false ∧
  queue_size pool_after_three = 1%N ∧
  (queue_size pool_after_three +
   N.of_nat (length (dequeued pool_after_three)) =
   N.of_nat (length (accepted schedule_of_three)))%N.
Proof.
  assert (Hc : Simple_thread_pool roomy_host 1 None = (Val tt, pool_of_one))
    by (vm_compute; reflexivity).
  assert (Hrun : run schedule_of_three pool_of_one = Some pool_after_three)
    by (vm_compute; reflexivity).
  split; [exact Hc|]. split; [exact Hrun|]. split; [reflexivity|].
  split; [reflexivity|].
  exact (proj2 (queue_size_accounting roomy_host 1 None pool_of_one schedule_of_three
                  pool_after_three Hc Hrun) eq_refl).
Defined.

(** ** Submission *)

(** X7. A call of [submit] with a non-empty function that is served (the
    pool exists and the queue lock is free) returns normally, puts the
    function at the back of the queue and raises [queue_size()] by one.  It
    unblocks exactly one worker when some worker is blocked on the condition
    variable, and changes no worker otherwise.  It does not look at the
    running flag. *)
Theorem submit_pushes_and_wakes_one (t : Task) (pick : nat) (p p' : Pool) :
  exec (ASubmit (Some t) pick) p = Some p' →
  fst (submit (Some t) pick p) = Val tt ∧
  queue_mutex_ p = None ∧
  queue_ p' = queue_ p ++ [Some t] ∧
  queue_size p' = (queue_size p + 1)%N ∧
  is_started_ p' = is_started_ p ∧
  started p' = started p ∧
  dequeued p' = dequeued p ∧
  ((∃ i, workers_ p !! i = Some Blocked) →
   workers_ p !! pick = Some Blocked ∧
   workers_ p' = <[pick:=Woken]> (workers_ p)) ∧
  ((∀ i, workers_ p !! i ≠ Some Blocked) → workers_ p' = workers_ p).
Proof.
  intros H. simpl in H.
  destruct (alive p && queue_free p && valid_pick pick (workers_ p))
    eqn:Hen; [|done].
  apply andb_true_iff in Hen as [Hen Hpick].
  apply andb_true_iff in Hen as [_ Hfree].
  injection H as <-. simpl.
  split; [done|].
  split; [unfold queue_free in Hfree; by destruct (queue_mutex_ p)|].
  split; [done|].
  split; [unfold queue_size; simpl; rewrite List.length_app; simpl; lia|].
  split; [done|]. split; [done|]. split; [done|].
  unfold valid_pick in Hpick. unfold notify_one. split.
  - intros [i Hi].
    destruct (workers_ p !! pick) as [w|] eqn:Hp.
    + destruct (is_blocked w) eqn:Hb; [by destruct w|].
      exfalso.
      assert (Hex : existsb is_blocked (workers_ p) = true).
      { apply existsb_exists. exists Blocked. split; [|done].
        apply list_elem_of_In. by eapply list_elem_of_lookup_2. }
      rewrite Hex in Hpick. by destruct w.
    + exfalso.
      assert (Hex : existsb is_blocked (workers_ p) = true).
      { apply existsb_exists. exists Blocked. split; [|done].
        apply list_elem_of_In. by eapply list_elem_of_lookup_2. }
      rewrite Hex in Hpick. done.
  - intros Hnone. destruct (workers_ p !! pick) as [w|] eqn:Hp; [|done].
    destruct w; try done. by destruct (Hnone pick).
Qed.

Lemma submit_pushes_and_wakes_one_witness :
  exec (ASubmit (Some (task_ok 7)) 0) pool_deadlocked =
    Some pool_after_late_submit ∧
  workers_ pool_deadlocked = [Blocked] ∧
  workers_ pool_after_late_submit = [Woken] ∧
  queue_size pool_after_late_submit = (queue_size pool_deadlocked + 1)%N.
Proof.
  assert (Hex : exec (ASubmit (Some (task_ok 7)) 0) pool_deadlocked =
                Some pool_after_late_submit) by (vm_compute; reflexivity).
  destruct (submit_pushes_and_wakes_one (task_ok 7) 0 pool_deadlocked
              pool_after_late_submit Hex)
    as (_ & _ & _ & Hsz & _ & _ & _ & Hw & _).
  split; [exact Hex|]. split; [reflexivity|].
  split; [exact (proj2 (Hw (ex_intro _ 0 eq_refl))) | exact Hsz].
Defined.

(** ** Progress while the pool runs *)









(** ** The end of the pool *)

(** X9. The destructor returns only after every worker has returned from
    [wait_and_run].  In every state a constructed pool can reach in which
    the destructor has returned, every worker has exited, the running flag
    is cleared, both locks are free, and nothing can happen any more: no
    call is served and no thread moves. *)
Theorem destructor_returns_after_every_worker (host : Host) (n : N) (logger : Logger)
    (p0 : Pool) (acts : list Action) (p : Pool) :
  Simple_thread_pool host n logger = (Val tt, p0) →
  run acts p0 = Some p →
  dtor_ p = DDone →
  (∀ i w, workers_ p !! i = Some w → w = Exited) ∧
  is_started_ p = false ∧
  work_mutex_ p = false ∧
  queue_mutex_ p = None ∧
  ∀ a, exec a p = None.
Proof.
  intros Hc Hrun Hd.
  pose proof (destructor_joins_every_worker host n logger p0 acts p Hc Hrun Hd)
    as Hall.
  destruct (reachable_sync_inv host n logger p0 acts p Hc Hrun)
    as [_ [Hh _ _ _ Hfl Hwm]].
  assert (Hm : queue_mutex_ p = None).
  { destruct (queue_mutex_ p) as [i|] eqn:Hm; [|done].
    destruct (Hh i eq_refl) as (w & Hw & Hhold).
    by rewrite (Hall i w Hw) in Hhold. }
  split; [exact Hall|]. rewrite Hfl, Hwm, Hd.
  split; [done|]. split; [done|]. split; [exact Hm|].
  intros a. destruct a as [[?|] ?| | | | |i|i]; simpl;
    unfold alive, wait_and_run, destructor; rewrite ?Hd; try done.
  - destruct (workers_ p !! i) as [w|] eqn:Hw; [|done].
    by rewrite (Hall i w Hw).
  - destruct (workers_ p !! i) as [w|] eqn:Hw; [|done].
    by rewrite (Hall i w Hw).
Qed.

Lemma destructor_returns_after_every_worker_witness :
  Simple_thread_pool roomy_host 1 None = (Val tt, pool_of_one) ∧
  run schedule_clean_shutdown pool_of_one = Some pool_shut_down ∧
  dtor_ pool_shut_down = DDone ∧
  (∀ i w, workers_ pool_shut_down !! i = Some w → w = Exited) ∧
  ∀ a, exec a pool_shut_down = None.
Proof.
  assert (Hc : Simple_thread_pool roomy_host 1 None = (Val tt, pool_of_one))
    by (vm_compute; reflexivity).
  assert (Hrun : run schedule_clean_shutdown pool_of_one =
                 Some pool_shut_down) by (vm_compute; reflexivity).
  split; [exact Hc|]. split; [exact Hrun|]. split; [reflexivity|].
  destruct (destructor_returns_after_every_worker roomy_host 1 None pool_of_one
              schedule_clean_shutdown pool_shut_down Hc Hrun eq_refl)
    as (Hall & _ & _ & _ & Hnone).
  split; [exact Hall | exact Hnone].
Defined.

(** ** Who unblocks a worker *)

(** X10. A worker blocked on the condition variable stays blocked through
    every transition but three: a [submit] that picks it, the broadcast of
    the destructor, and a spurious wake-up of its own wait; each of these
    leaves it about to re-lock the queue mutex.  In particular [clear],
    [queue_size], [size], a rejected [submit] and the steps of the other
    workers never wake it. *)
Theorem blocked_worker_needs_a_notification (a : Action) (p p' : Pool)
    (i : nat) :
  exec a p = Some p' →
  workers_ p !! i = Some Blocked →
  workers_ p' !! i = Some Blocked ∨
  (workers_ p' !! i = Some Woken ∧
   ((∃ t, a = ASubmit (Some t) i) ∨
    (a = ADestructor ∧ dtor_ p = DNotify) ∨
    a = ASpurious i)).
Proof.
  intros H Hb.
  exec_cases H; eauto.
  all: try (left; rewrite list_lookup_insert_ne; [done|congruence]).
  - unfold notify_one.
    destruct (workers_ p !! pick) as [w|] eqn:Hp; [|by left].
    destruct w; try by left.
    destruct (decide (pick = i)) as [->|Hne].
    + right. split; [|eauto].
      apply list_lookup_insert_eq. by eapply lookup_lt_Some.
    + left. by rewrite list_lookup_insert_ne.
  - right. split; [|auto].
    by rewrite (lookup_notify_all_fwd _ _ _ Hb).
  - destruct (decide (i0 = i)) as [->|Hne].
    + right. split; [|auto].
      apply list_lookup_insert_eq. by eapply lookup_lt_Some.
    + left. by rewrite list_lookup_insert_ne.
Qed.

Lemma blocked_worker_needs_a_notification_witness :
  exec (ASubmit (Some (task_ok 7)) 0) pool_deadlocked =
    Some pool_after_late_submit ∧
  workers_ pool_deadlocked !! 0 = Some Blocked ∧
  exec AClear pool_deadlocked = Some (clear pool_deadlocked) ∧
  workers_ (clear pool_deadlocked) !! 0 = Some Blocked ∧
  (workers_ pool_after_late_submit !! 0 = Some Blocked ∨
   workers_ pool_after_late_submit !! 0 = Some Woken ∧
   ((∃ t, ASubmit (Some (task_ok 7)) 0 = ASubmit (Some t) 0) ∨
    (ASubmit (Some (task_ok 7)) 0 = ADestructor ∧
     dtor_ pool_deadlocked = DNotify) ∨
    ASubmit (Some (task_ok 7)) 0 = ASpurious 0)).
Proof.
  assert (Hex : exec (ASubmit (Some (task_ok 7)) 0) pool_deadlocked =
                Some pool_after_late_submit) by (vm_compute; reflexivity).
  split; [exact Hex|]. split; [reflexivity|]. split; [reflexivity|].
  split; [reflexivity|].
  exact (blocked_worker_needs_a_notification _ pool_deadlocked
           pool_after_late_submit 0 Hex eq_refl).
Defined.

(** ** Quiescence *)




(** ** More on thread affinity *)

Lemma CPU_SET_only (cpu : N) (k : Z) :
  Z.testbit (CPU_SET cpu CPU_ZERO) k = true → k = Z.of_N cpu.
Proof.
  unfold CPU_SET, CPU_ZERO. destruct (cpu / 8 <? sizeof_cpu_set_t)%N.
  - rewrite Z.lor_0_l. by intros ?%testbit_single.
  - by rewrite Z.bits_0.
Qed.

(** X11. Whatever its arguments, [set_affinity] calls the OS at most once;
    a call it makes is for the handle it was given, which is not null, with
    the size of a [cpu_set_t] and a mask in which no CPU other than the one
    asked for is set, and that CPU is below the reported hardware
    concurrency.  The error code it returns is always of the generic
    category.  The overload for [std::thread] is the same function at the
    thread's native handle. *)
Theorem set_affinity_asks_for_no_other_cpu (hardware_concurrency : N)
    (os : OsCall → Z) (handle : pthread_t) (cpu : N) (th : thread) :
  (length (snd (set_affinity hardware_concurrency os handle cpu)) ≤ 1)%nat ∧
  (∀ c, c ∈ snd (set_affinity hardware_concurrency os handle cpu) →
        call_handle c = handle ∧ handle ≠ 0%N ∧
        call_cpusetsize c = sizeof_cpu_set_t ∧
        (cpu < hardware_concurrency)%N ∧
        ∀ k, Z.testbit (call_set c) k = true → k = Z.of_N cpu) ∧
  category (fst (set_affinity hardware_concurrency os handle cpu)) =
    generic_category ∧
  set_affinity_thread hardware_concurrency os th cpu =
    set_affinity hardware_concurrency os (native_handle th) cpu.
Proof.
  unfold set_affinity_thread.
  split; [|split; [|split; [|done]]]; unfold set_affinity;
    destruct (N.eqb_spec handle 0) as [->|Hh];
    destruct (N.ltb_spec cpu hardware_concurrency) as [Hc|Hc]; simpl;
    try done; try lia;
    try (intros c Hin; by apply elem_of_nil in Hin).
  intros c ->%list_elem_of_singleton. simpl.
  repeat (split; [done|]). intros k. apply CPU_SET_only.
Qed.

(** X12. [set_affinity] reports success only for a binding the OS accepted:
    the value of the returned code is 0 exactly when the handle is not
    null, the cpu index is below the reported hardware concurrency, and the
    one call of [pthread_setaffinity_np] returned 0.  When an argument is
    rejected the value is [EINVAL], which is also what the caller sees
    when the OS itself answers [EINVAL]. *)
Theorem set_affinity_success (hardware_concurrency : N) (os : OsCall → Z)
    (handle : pthread_t) (cpu : N) :
  let c := mkOsCall handle sizeof_cpu_set_t (CPU_SET cpu CPU_ZERO) in
  (value (fst (set_affinity hardware_concurrency os handle cpu)) = 0%Z ↔
   handle ≠ 0%N ∧ (cpu < hardware_concurrency)%N ∧ os c = 0%Z) ∧
  (handle = 0%N ∨ (hardware_concurrency ≤ cpu)%N ∨ os c = EINVAL →
   fst (set_affinity hardware_concurrency os handle cpu) = invalid_argument).
Proof.
  unfold set_affinity.
  destruct (N.eqb_spec handle 0) as [->|Hh]; simpl.
  - split; [split; [done|by intros [? _]]|done].
  - destruct (N.ltb_spec cpu hardware_concurrency) as [Hc|Hc]; simpl.
    + split; [split; [done|by intros (_ & _ & ?)]|].
      intros [?|[?|Hos]]; [done|lia|]. by rewrite Hos.
    + split; [split; [done|intros (_ & ? & _); lia]|done].
Qed.

Lemma set_affinity_success_witness :
  (1%N ≠ 0%N ∧ (3 < 8)%N ∧
   os_rejecting_empty_mask (mkOsCall 1%N sizeof_cpu_set_t (CPU_SET 3%N CPU_ZERO)) =
     0%Z) ∧
  value (fst (set_affinity 8 os_rejecting_empty_mask 1%N 3%N)) = 0%Z ∧
  fst (set_affinity 8 os_rejecting_empty_mask 1%N 9%N) = invalid_argument.
Proof.
  assert (H : 1%N ≠ 0%N ∧ (3 < 8)%N ∧
              os_rejecting_empty_mask
                (mkOsCall 1%N sizeof_cpu_set_t (CPU_SET 3%N CPU_ZERO)) = 0%Z)
    by (split; [done|split; reflexivity]).
  split; [exact H|]. split.
  - exact (proj2 (proj1 (set_affinity_success 8 os_rejecting_empty_mask
                           1%N 3%N)) H).
  - apply (proj2 (set_affinity_success 8 os_rejecting_empty_mask 1%N 9%N)).
    right. left. vm_compute. discriminate.
Defined.
